(** * InkSync collaborative canvas: the server's operation ledger and
      synchronisation handlers

    Shallow embedding of
      - [DrawingStateManager]  (server/drawing-state.js)
      - [validateDrawingData] and the socket handlers (server/server.js)
    followed by the properties of the design document that concern them. *)

From Stdlib Require Import QArith Qcanon Ascii.
From stdpp Require Import gmap strings list fin_maps pretty.

Set Default Proof Using "Type".
Set Warnings "-register-all,-clear-no-such-hyp".

(** ** The drawing state manager (drawing-state.js)

  The manager never inspects an operation beyond its [id] property, so the
  embedding is parametric in the type of operations and in the projection
  [id], which gives the property key that [operation.id] denotes.

  [roomStates] is a JavaScript [Map] from room identifiers to state objects,
  a finite map with string keys.  [operationIndex] is a plain object used
  as a dictionary from operation ids to array positions: a finite map of own
  properties behind which the members of [Object.prototype] stay visible.
  A state object is mutated in place by the methods; the embedding writes
  the updated record back under the same room identifier. *)

Module Ledger.

(** *** The index object

    [operationIndex] is created by the literal [{}] and is only ever
    written by [index[k] = n] and [delete index[k]], so its own properties
    are the keys of a finite map, and the names below, which every object
    inherits from [Object.prototype], are found by a read as well. *)

Definition prototype_names : list string :=
  ["constructor"; "__defineGetter__"; "__defineSetter__"; "hasOwnProperty";
   "__lookupGetter__"; "__lookupSetter__"; "isPrototypeOf";
   "propertyIsEnumerable"; "toString"; "valueOf"; "__proto__";
   "toLocaleString"].

(** What [index[k]] is when it is not [undefined]: a position stored under
    the own property [k], or an inherited member (a function, or the
    prototype itself for [__proto__]). *)
Inductive IndexValue :=
| Position (n : nat)
| Inherited.

(** [index[k]]; [None] is [undefined].  An own property shadows an inherited
    one; [__proto__] is an accessor on the prototype and never an own
    property of an index. *)
Definition index_get (index : gmap string nat) (k : string) : option IndexValue :=
  if bool_decide (k = "__proto__") then Some Inherited
  else
    match index !! k with
    | Some n => Some (Position n)
    | None => if bool_decide (k ∈ prototype_names) then Some Inherited else None
    end.

(** [index[k] = n]: creates or overwrites the own property [k], except for
    [__proto__], where the inherited setter is called and ignores a number. *)
Definition index_set (index : gmap string nat) (k : string) (n : nat)
  : gmap string nat :=
  if bool_decide (k = "__proto__") then index else <[k := n]> index.

(** [delete index[k]]: removes the own property [k]; there is none for
    [__proto__]. *)
Definition index_delete (index : gmap string nat) (k : string) : gmap string nat :=
  if bool_decide (k = "__proto__") then index else delete k index.

(** The integer that [splice] makes of its first argument: a stored
    position is itself, a function or an object converts to [NaN] and so
    to 0. *)
Definition splice_start (v : IndexValue) : nat :=
  match v with
  | Position n => n
  | Inherited => 0
  end.

Section manager.
Context {Operation : Type} (id : Operation → string).

Record RoomState := mkRoomState {
  operations : list Operation;          (* All drawing operations *)
  undoStack : list Operation;           (* Operations that have been undone *)
  operationIndex : gmap string nat      (* Quick lookup for operations by ID *)
}.

Definition set_operations (ops : list Operation) (state : RoomState) :=
  mkRoomState ops (undoStack state) (operationIndex state).
Definition set_undoStack (us : list Operation) (state : RoomState) :=
  mkRoomState (operations state) us (operationIndex state).
Definition set_operationIndex (ix : gmap string nat) (state : RoomState) :=
  mkRoomState (operations state) (undoStack state) ix.

(** The object literal of [_getRoomState]. *)
Definition emptyRoomState : RoomState := mkRoomState [] [] ∅.

(** [_getRoomState(roomId)]: the state of the room, created on first use. *)
Definition _getRoomState (roomId : string) (roomStates : gmap string RoomState)
  : RoomState * gmap string RoomState :=
  match roomStates !! roomId with
  | Some state => (state, roomStates)
  | None => (emptyRoomState, <[roomId := emptyRoomState]> roomStates)
  end.

(** [addOperation(roomId, operation)] *)
Definition addOperation (roomId : string) (operation : Operation)
    (roomStates : gmap string RoomState)
  : Operation * gmap string RoomState :=
  let '(state, roomStates) := _getRoomState roomId roomStates in
  let state := set_undoStack [] state in
  let state := set_operations (operations state ++ [operation]) state in
  let state :=
    set_operationIndex
      (index_set (operationIndex state) (id operation) (length (operations state) - 1))
      state in
  (operation, <[roomId := state]> roomStates).

(** [undo(roomId)]; [None] is the [null] result.  [last] is [None] exactly
    when the array has length 0, and otherwise [pop] returns that element
    and leaves [removelast]. *)
Definition undo (roomId : string) (roomStates : gmap string RoomState)
  : option Operation * gmap string RoomState :=
  let '(state, roomStates) := _getRoomState roomId roomStates in
  match last (operations state) with
  | None => (None, roomStates)
  | Some operation =>
      let state := set_operations (removelast (operations state)) state in
      let state := set_undoStack (undoStack state ++ [operation]) state in
      let state :=
        set_operationIndex (index_delete (operationIndex state) (id operation))
          state in
      (Some operation, <[roomId := state]> roomStates)
  end.

(** [redo(roomId)] *)
Definition redo (roomId : string) (roomStates : gmap string RoomState)
  : option Operation * gmap string RoomState :=
  let '(state, roomStates) := _getRoomState roomId roomStates in
  match last (undoStack state) with
  | None => (None, roomStates)
  | Some operation =>
      let state := set_undoStack (removelast (undoStack state)) state in
      let state := set_operations (operations state ++ [operation]) state in
      let state :=
        set_operationIndex
          (index_set (operationIndex state) (id operation)
             (length (operations state) - 1))
          state in
      (Some operation, <[roomId := state]> roomStates)
  end.

(** [getState(roomId)] *)
Definition getState (roomId : string) (roomStates : gmap string RoomState)
  : RoomState * gmap string RoomState :=
  _getRoomState roomId roomStates.

(** [clearState(roomId)] *)
Definition clearState (roomId : string) (roomStates : gmap string RoomState)
  : gmap string RoomState :=
  let '(state, roomStates) := _getRoomState roomId roomStates in
  let state := set_operations [] state in
  let state := set_undoStack [] state in
  let state := set_operationIndex ∅ state in
  <[roomId := state]> roomStates.

(** What [getOperation] returns: an operation, [undefined] or [null]. *)
Inductive Lookup :=
| Found (operation : Operation)
| Undefined
| Null.

(** [getOperation(roomId, operationId)].  [operations[index]] is the
    element at a stored position, [undefined] past the end, and
    [undefined] when [index] is an inherited member, which names no element
    of an array. *)
Definition getOperation (roomId operationId : string)
    (roomStates : gmap string RoomState)
  : Lookup * gmap string RoomState :=
  let '(state, roomStates) := _getRoomState roomId roomStates in
  match index_get (operationIndex state) operationId with
  | Some (Position index) =>
      (match operations state !! index with
       | Some operation => Found operation
       | None => Undefined
       end, roomStates)
  | Some Inherited => (Undefined, roomStates)
  | None => (Null, roomStates)
  end.

(** The [forEach] of [_rebuildIndex], started at position [index]. *)
Fixpoint index_each (index : nat) (ops : list Operation) (ix : gmap string nat)
  : gmap string nat :=
  match ops with
  | [] => ix
  | op :: ops => index_each (S index) ops (index_set ix (id op) index)
  end.

(** [_rebuildIndex(state)] *)
Definition _rebuildIndex (state : RoomState) : RoomState :=
  let state := set_operationIndex ∅ state in
  set_operationIndex (index_each 0 (operations state) (operationIndex state)) state.

(** [removeOperation(roomId, operationId)]; [splice(index, 1)] drops the
    element at [index] and does nothing when [index] is past the end. *)
Definition removeOperation (roomId operationId : string)
    (roomStates : gmap string RoomState)
  : gmap string RoomState :=
  let '(state, roomStates) := _getRoomState roomId roomStates in
  match index_get (operationIndex state) operationId with
  | Some index =>
      let state :=
        set_operations (delete (splice_start index) (operations state)) state in
      let state :=
        set_operationIndex (index_delete (operationIndex state) operationId) state in
      let state := _rebuildIndex state in
      <[roomId := state]> roomStates
  | None => roomStates
  end.

(** *** Sequences of calls *)

Inductive Call :=
| AddOperation (roomId : string) (operation : Operation)
| Undo (roomId : string)
| Redo (roomId : string)
| RemoveOperation (roomId operationId : string)
| ClearState (roomId : string).

Definition call (c : Call) (roomStates : gmap string RoomState)
  : gmap string RoomState :=
  match c with
  | AddOperation roomId operation => (addOperation roomId operation roomStates).2
  | Undo roomId => (undo roomId roomStates).2
  | Redo roomId => (redo roomId roomStates).2
  | RemoveOperation roomId operationId => removeOperation roomId operationId roomStates
  | ClearState roomId => clearState roomId roomStates
  end.

Fixpoint calls (cs : list Call) (roomStates : gmap string RoomState)
  : gmap string RoomState :=
  match cs with
  | [] => roomStates
  | c :: cs => calls cs (call c roomStates)
  end.

(** The ids of the operations appended by a sequence of calls. *)
Fixpoint appended (cs : list Call) : list string :=
  match cs with
  | [] => []
  | AddOperation _ operation :: cs => id operation :: appended cs
  | _ :: cs => appended cs
  end.

(** The ledger of a room as the methods observe it. *)
Definition ledger (roomId : string) (roomStates : gmap string RoomState)
  : RoomState :=
  (_getRoomState roomId roomStates).1.

(** The index holds exactly the positions of the listed operations. *)
Definition index_consistent (state : RoomState) : Prop :=
  (∀ k i, operationIndex state !! k = Some i →
          ∃ op, operations state !! i = Some op ∧ id op = k) ∧
  (∀ i op, operations state !! i = Some op →
           operationIndex state !! id op = Some i).

(** The ids a room holds, in its log or on its undo stack. *)
Definition held_ids (state : RoomState) : list string :=
  id <$> (operations state ++ undoStack state).

(** The invariant carried through a sequence of calls: the index is the
    one [_rebuildIndex] computes, no id is held twice, and no held id is
    among the ids [pending], those still to be appended. *)
Definition well_formed (pending : list string) (state : RoomState) : Prop :=
  operationIndex state = index_each 0 (operations state) ∅ ∧
  NoDup (held_ids state) ∧
  (∀ k, k ∈ held_ids state → k ∉ pending).

(** A manager reached from the initial one by calls that append operations
    with pairwise distinct ids. *)
Definition reachable (roomStates : gmap string RoomState) : Prop :=
  ∃ cs, NoDup (appended cs) ∧ roomStates = calls cs ∅.

End manager.

(** A sequence of calls on a ledger whose operations are bare names, each
    its own id. *)
Definition sample_calls : list (@Call string) :=
  [AddOperation "room" "a"; AddOperation "room" "b"; AddOperation "room" "c";
   Undo "room"; Redo "room"; RemoveOperation "room" "a"; AddOperation "lobby" "d"].

(** Three operations with distinct ids, the second named [__proto__]. *)
Definition proto_calls : list (@Call string) :=
  [AddOperation "room" "a"; AddOperation "room" "__proto__";
   AddOperation "room" "b"].

(** Two operations, neither named [constructor]. *)
Definition two_calls : list (@Call string) :=
  [AddOperation "room" "a"; AddOperation "room" "b"].

End Ledger.

(** ** JavaScript values received from the transport

  Event payloads are JSON-like values.  A number is an IEEE double: every
  finite double is a rational and the comparisons [<] and [>] of finite
  doubles are those of the rationals, so finite numbers are carried as
  rationals next to the three special values. *)

Module JS.

Inductive number :=
| NaN
| PosInfinity
| NegInfinity
| Finite (q : Qc).

Inductive value :=
| VUndefined
| VNull
| VBool (b : bool)
| VNumber (n : number)
| VString (s : string)
| VArray (elements : list value)
| VObject (properties : gmap string value).

(** Abrupt completion by a thrown error, next to normal completion. *)
Inductive completion (A : Type) :=
| Normal (a : A)
| Throw (error : string).
Global Arguments Normal {A} a.
Global Arguments Throw {A} error.

Global Instance completion_ret : MRet completion := λ A a, Normal a.
Global Instance completion_bind : MBind completion := λ A B f m,
  match m with
  | Normal a => f a
  | Throw e => Throw e
  end.

(** [typeof v] *)
Definition typeof (v : value) : string :=
  match v with
  | VUndefined => "undefined"
  | VNull => "object"
  | VBool _ => "boolean"
  | VNumber _ => "number"
  | VString _ => "string"
  | VArray _ => "object"
  | VObject _ => "object"
  end.

(** [!v] is [negb (truthy v)]. *)
Definition truthy (v : value) : bool :=
  match v with
  | VUndefined | VNull => false
  | VBool b => b
  | VNumber NaN => false
  | VNumber (Finite q) => negb (bool_decide (q = 0%Qc))
  | VNumber _ => true
  | VString s => negb (bool_decide (s = ""))
  | VArray _ | VObject _ => true
  end.

(** [v.k] for the property names the server reads ([points], [tool],
    [strokeWidth], [color], [x], [y], [id]): reading a property of [null]
    or [undefined] throws a TypeError, an object yields its own property or
    [undefined], and no other value has a property of one of these names. *)
Definition get (v : value) (k : string) : completion value :=
  match v with
  | VUndefined | VNull => Throw "TypeError"
  | VObject properties => Normal (default VUndefined (properties !! k))
  | _ => Normal VUndefined
  end.

(** [a < b] on numbers; every comparison with [NaN] is false. *)
Definition number_lt (a b : number) : bool :=
  match a, b with
  | NaN, _ | _, NaN => false
  | Finite x, Finite y => bool_decide (x < y)%Qc
  | NegInfinity, NegInfinity => false
  | NegInfinity, _ => true
  | Finite _, PosInfinity => true
  | _, _ => false
  end.

(** [isFinite(n)] on a value that is already a number. *)
Definition isFinite (n : number) : bool :=
  match n with
  | Finite _ => true
  | _ => false
  end.

Definition of_Z (z : Z) : number := Finite (Qc_of_Z z).

Definition hex_digits : list Ascii.ascii :=
  String.list_ascii_of_string "0123456789ABCDEFabcdef".

(** [/^#[0-9A-Fa-f]{6}$/.test(s)] *)
Definition test_hex_color (s : string) : bool :=
  match s with
  | String "#"%char digits =>
      bool_decide (String.length digits = 6) &&
      forallb (λ c, bool_decide (c ∈ hex_digits)) (String.list_ascii_of_string digits)
  | _ => false
  end.

End JS.

(** ** The server (server.js) *)

Module Server.
Import JS.

(** The loop over [data.points]. *)
Fixpoint validatePoints (points : list value) : completion bool :=
  match points with
  | [] => Normal true
  | point :: points =>
      x ← get point "x";
      if negb (bool_decide (typeof x = "number")) then Normal false else
      y ← get point "y";
      if negb (bool_decide (typeof y = "number")) then Normal false else
      match x, y with
      | VNumber x, VNumber y =>
          if negb (isFinite x) || negb (isFinite y) then Normal false
          else validatePoints points
      | _, _ => Normal false
      end
  end.

Definition validTools : list string := ["brush"; "eraser"].

(** [validateDrawingData(data)] *)
Definition validateDrawingData (data : value) : completion bool :=
  (* Check required fields exist *)
  if negb (truthy data) || negb (bool_decide (typeof data = "object"))
  then Normal false else
  points ← get data "points";
  match points with
  | VArray points =>
      if bool_decide (length points = 0) then Normal false else
      tool ← get data "tool";
      match tool with
      | VString tool =>
          strokeWidth ← get data "strokeWidth";
          match strokeWidth with
          | VNumber strokeWidth =>
              (* Validate tool type *)
              if negb (bool_decide (tool ∈ validTools)) then Normal false else
              (* Validate stroke width (1-50) *)
              if number_lt strokeWidth (of_Z 1) || number_lt (of_Z 50) strokeWidth
              then Normal false else
              (* Validate color format for non-eraser tools *)
              color ← get data "color";
              if bool_decide (tool ≠ "eraser") &&
                 match color with
                 | VString color => negb (test_hex_color color)
                 | _ => true
                 end
              then Normal false else
              (* Validate points have valid coordinates *)
              validatePoints points
          | _ => Normal false
          end
      | _ => Normal false
      end
  | _ => Normal false
  end.

(** *** Rooms and broadcasts (socket.io)

    [sids] is the adapter's table from the id of each connected socket to
    the rooms it has joined, in the order it joined them; the first is the
    room named after the socket itself.  [socket.rooms] reads this table,
    and a room's members are the sockets that list it. *)

Definition socket_rooms (sids : gmap string (list string)) (socket_id : string)
  : list string :=
  default [] (sids !! socket_id).

Definition members (sids : gmap string (list string)) (room : string)
  : gset string :=
  dom (filter (λ entry, room ∈ entry.2) sids).

(** One [emit]: the sockets it is delivered to, the event name and the
    arguments that follow it. *)
Record Emit := mkEmit {
  recipients : gset string;
  event : string;
  args : list value
}.

(** [socket.to(room).emit(event, ...args)] *)
Definition socket_to_emit (sids : gmap string (list string))
    (socket_id room event : string) (args : list value) : Emit :=
  mkEmit (members sids room ∖ {[socket_id]}) event args.

(** [io.to(room).emit(event, ...args)] *)
Definition io_to_emit (sids : gmap string (list string))
    (room event : string) (args : list value) : Emit :=
  mkEmit (members sids room) event args.

(** [rooms.find(room => room !== socket.id) || 'default-room'] *)
Definition roomIdOf (sids : gmap string (list string)) (socket_id : string)
  : string :=
  match List.find (λ room, negb (bool_decide (room = socket_id)))
                  (socket_rooms sids socket_id) with
  | Some room => if bool_decide (room = "") then "default-room" else room
  | None => "default-room"
  end.

(** *** Operations

    The ledger stores the objects built by the draw handler.  Their [id] is
    a template literal, hence a string, and that string is the key under
    which the ledger indexes them; an object without an [id] would be
    indexed under the key "undefined". *)

Definition operation_id (operation : gmap string value) : string :=
  match operation !! "id" with
  | Some (VString s) => s
  | _ => "undefined"
  end.

(** The own properties copied by [...data].  Only objects are spread here:
    the handler returns before the literal unless [validateDrawingData]
    accepted [data], which it does for objects only. *)
Definition spread (data : value) : gmap string value :=
  match data with
  | VObject properties => properties
  | _ => ∅
  end.

(** The object literal of the draw handler.  [now1] and [now2] are the
    results of its two calls of [Date.now()], [random] the text of the
    result of [Math.random()].  Later properties of a literal replace
    earlier ones of the same name. *)
Definition stamp (socket_id : string) (now1 now2 : Z) (random : string)
    (data : value) : gmap string value :=
  <["id" := VString (socket_id +:+ "-" +:+ pretty now2 +:+ "-" +:+ random)]>
    (<["timestamp" := VNumber (of_Z now1)]>
       (<["userId" := VString socket_id]> (spread data))).

(** *** The handlers

    A handler runs against the state manager and yields the manager it
    leaves, the events it emitted, what it wrote with [console.warn], and
    the error it threw, if any. *)

Record Outcome := mkOutcome {
  stateManager : gmap string (@Ledger.RoomState (gmap string value));
  emitted : list Emit;
  warned : list string;
  thrown : option string
}.

(** [socket.on('draw', (data) => ...)] *)
Definition on_draw (sids : gmap string (list string)) (socket_id : string)
    (now1 now2 : Z) (random : string) (data : value)
    (stateManager : gmap string (@Ledger.RoomState (gmap string value)))
  : Outcome :=
  let roomId := roomIdOf sids socket_id in
  (* Validate incoming drawing data *)
  match validateDrawingData data with
  | Throw error => mkOutcome stateManager [] [] (Some error)
  | Normal false =>
      mkOutcome stateManager [] ["Invalid drawing data from " +:+ socket_id] None
  | Normal true =>
      (* Add operation to state *)
      let operation := stamp socket_id now1 now2 random data in
      let '(_, stateManager) :=
        Ledger.addOperation operation_id roomId operation stateManager in
      (* Broadcast to all other users in the room *)
      mkOutcome stateManager
        [socket_to_emit sids socket_id roomId "draw" [VObject operation]] [] None
  end.

(** [socket.on('undo', () => ...)] *)
Definition on_undo (sids : gmap string (list string)) (socket_id : string)
    (stateManager : gmap string (@Ledger.RoomState (gmap string value)))
  : Outcome :=
  let roomId := roomIdOf sids socket_id in
  let '(undoneOperation, stateManager) :=
    Ledger.undo operation_id roomId stateManager in
  match undoneOperation with
  | Some undoneOperation =>
      (* Broadcast undo to all users including sender *)
      mkOutcome stateManager
        [io_to_emit sids roomId "undo"
           [VObject {["operationId" := default VUndefined (undoneOperation !! "id")]}]]
        [] None
  | None => mkOutcome stateManager [] [] None
  end.

(** [socket.on('redo', () => ...)] *)
Definition on_redo (sids : gmap string (list string)) (socket_id : string)
    (stateManager : gmap string (@Ledger.RoomState (gmap string value)))
  : Outcome :=
  let roomId := roomIdOf sids socket_id in
  let '(redoneOperation, stateManager) :=
    Ledger.redo operation_id roomId stateManager in
  match redoneOperation with
  | Some redoneOperation =>
      (* Broadcast redo to all users including sender *)
      mkOutcome stateManager
        [io_to_emit sids roomId "redo"
           [VObject {["operation" := VObject redoneOperation]}]]
        [] None
  | None => mkOutcome stateManager [] [] None
  end.

(** [socket.on('clear-canvas', () => ...)] *)
Definition on_clear_canvas (sids : gmap string (list string)) (socket_id : string)
    (stateManager : gmap string (@Ledger.RoomState (gmap string value)))
  : Outcome :=
  let roomId := roomIdOf sids socket_id in
  let stateManager := Ledger.clearState roomId stateManager in
  (* Broadcast clear to all users *)
  mkOutcome stateManager [io_to_emit sids roomId "clear-canvas" []] [] None.

(** *** The acceptance condition in the words of the design document

    Section 4.1: a candidate is accepted iff [points] is a non-empty
    sequence in which every point has finite numeric [x] and [y]
    coordinates, [tool] is one of brush and eraser, [strokeWidth] is
    numeric and inside [1, 50], and, when the tool is not eraser, [color]
    is present and is a '#' followed by 6 hex digits.  This definition
    follows that wording, not the code. *)

Definition field (v : value) (k : string) : value :=
  match v with
  | VObject properties => default VUndefined (properties !! k)
  | _ => VUndefined
  end.

Definition finite_numeric (v : value) : bool :=
  match v with
  | VNumber (Finite _) => true
  | _ => false
  end.

Definition spec_point (point : value) : bool :=
  finite_numeric (field point "x") && finite_numeric (field point "y").

Definition spec_points (v : value) : bool :=
  match v with
  | VArray (point :: points) => forallb spec_point (point :: points)
  | _ => false
  end.

Definition spec_tool (v : value) : bool :=
  match v with
  | VString tool => bool_decide (tool = "brush" ∨ tool = "eraser")
  | _ => false
  end.

Definition spec_strokeWidth (v : value) : bool :=
  match v with
  | VNumber (Finite w) => bool_decide (Qc_of_Z 1 ≤ w ∧ w ≤ Qc_of_Z 50)%Qc
  | _ => false
  end.

Definition spec_color (tool color : value) : bool :=
  match tool, color with
  | VString tool, VString color =>
      bool_decide (tool = "eraser") || test_hex_color color
  | VString tool, _ => bool_decide (tool = "eraser")
  | _, _ => false
  end.

Definition spec_accepts (data : value) : bool :=
  spec_points (field data "points") &&
  spec_tool (field data "tool") &&
  spec_strokeWidth (field data "strokeWidth") &&
  spec_color (field data "tool") (field data "color").

(** The properties of a payload that [validateDrawingData] reads, and the
    properties that the draw handler sets itself. *)
Definition read_by_validator : list string :=
  ["points"; "tool"; "strokeWidth"; "color"].
Definition stamped_by_authority : list string := ["id"; "userId"; "timestamp"].

(** *** Sample payloads *)

Definition point (x y : Z) : value :=
  VObject {["x" := VNumber (of_Z x); "y" := VNumber (of_Z y)]}.

Definition stroke (points : list value) (tool : string) (color : option string)
    (strokeWidth : number) : gmap string value :=
  let properties : gmap string value :=
    {["points" := VArray points; "tool" := VString tool;
      "strokeWidth" := VNumber strokeWidth]} in
  match color with
  | Some color => <["color" := VString color]> properties
  | None => properties
  end.

(** [{points: [null], tool: 'brush', color: '#112233', strokeWidth: 5}] *)
Definition null_point_payload : value :=
  VObject (stroke [VNull] "brush" (Some "#112233") (of_Z 5)).

(** [{points: [{x: 1, y: 2}], tool: 'brush', color: '#112233', strokeWidth: NaN}] *)
Definition nan_width_payload : value :=
  VObject (stroke [point 1 2] "brush" (Some "#112233") NaN).

(** A brush stroke of three points that also carries an [id], a [userId],
    a [timestamp] and a field outside the wire shape. *)
Definition forged (id userId : string) (timestamp : Z) : value :=
  VObject
    (<["id" := VString id]>
       (<["userId" := VString userId]>
          (<["timestamp" := VNumber (of_Z timestamp)]>
             (<["pressure" := VNumber (of_Z 7)]>
                (stroke [point 0 0; point 1 1; point 2 4] "brush"
                        (Some "#112233") (of_Z 5)))))).

Definition forged_payload : value := forged "mine" "someone-else" 0.

(** [{points: [{x: 1, y: 2}], tool: 'brush', color: '#112233', strokeWidth: 0}] *)
Definition zero_width_payload : value :=
  VObject (stroke [point 1 2] "brush" (Some "#112233") (of_Z 0)).

(** Two sockets in room "studio", one socket that joined no room. *)
Definition sample_sids : gmap string (list string) :=
  {["s1" := ["s1"; "studio"]; "s2" := ["s2"; "studio"]; "s3" := ["s3"]]}.

End Server.

(** ** The room manager (rooms.js)

  [rooms] is a [Map] from room identifiers to [Map]s from user ids to user
  records.  The inner maps are iterated by [getUsers], so they are kept in
  insertion order: [set] on a present key replaces the value where it stands,
  on an absent key appends. *)

Module Rooms.
Import JS.

Record UserData := mkUserData {
  username : value;
  color : string;
  joinedAt : Z
}.

(** [m.set(k, v)] *)
Fixpoint map_set {V : Type} (k : string) (v : V) (m : list (string * V))
  : list (string * V) :=
  match m with
  | [] => [(k, v)]
  | entry :: m =>
      if bool_decide (entry.1 = k) then (k, v) :: m else entry :: map_set k v m
  end.

(** [m.get(k)]; [None] is [undefined]. *)
Fixpoint map_get {V : Type} (k : string) (m : list (string * V)) : option V :=
  match m with
  | [] => None
  | entry :: m => if bool_decide (entry.1 = k) then Some entry.2 else map_get k m
  end.

(** [m.delete(k)] *)
Fixpoint map_delete {V : Type} (k : string) (m : list (string * V))
  : list (string * V) :=
  match m with
  | [] => []
  | entry :: m => if bool_decide (entry.1 = k) then m else entry :: map_delete k m
  end.

(** Available colors for users *)
Definition availableColors : list string :=
  ["#FF6B6B"; "#4ECDC4"; "#45B7D1"; "#FFA07A";
   "#98D8C8"; "#F7DC6F"; "#BB8FCE"; "#85C1E2";
   "#F8B739"; "#52B788"; "#E63946"; "#A8DADC"].

(** The result of a method that returns [null], or what [Map.get] gave:
    [undefined] or a user record. *)
Inductive answer :=
| IsNull
| IsUndefined
| IsUser (user : UserData).

(** [addUser(roomId, userId, username)]; [now] is the result of
    [Date.now()].  The color index is less than the number of colors, so the
    array access is in range. *)
Definition addUser (roomId userId : string) (username : value) (now : Z)
    (rooms : gmap string (list (string * UserData)))
  : string * gmap string (list (string * UserData)) :=
  let rooms :=
    match rooms !! roomId with
    | Some _ => rooms
    | None => <[roomId := []]> rooms
    end in
  let room := default [] (rooms !! roomId) in
  let colorIndex := length room `mod` length availableColors in
  let userColor := nth colorIndex availableColors "" in
  let room := map_set userId (mkUserData username userColor now) room in
  (userColor, <[roomId := room]> rooms).

(** [removeUser(roomId, userId)] *)
Definition removeUser (roomId userId : string)
    (rooms : gmap string (list (string * UserData)))
  : answer * gmap string (list (string * UserData)) :=
  match rooms !! roomId with
  | None => (IsNull, rooms)
  | Some room =>
      let user := map_get userId room in
      let room := map_delete userId room in
      let rooms := <[roomId := room]> rooms in
      (* Clean up empty rooms *)
      let rooms :=
        if bool_decide (length room = 0) then delete roomId rooms else rooms in
      (match user with Some user => IsUser user | None => IsUndefined end, rooms)
  end.

(** The object literal pushed by [getUsers]. *)
Definition user_entry (userId : string) (userData : UserData) : value :=
  VObject {["userId" := VString userId;
            "username" := username userData;
            "color" := VString (color userData)]}.

(** [getUsers(roomId)] *)
Definition getUsers (roomId : string)
    (rooms : gmap string (list (string * UserData))) : list value :=
  match rooms !! roomId with
  | None => []
  | Some room => (λ entry, user_entry entry.1 entry.2) <$> room
  end.

(** [getUser(roomId, userId)] *)
Definition getUser (roomId userId : string)
    (rooms : gmap string (list (string * UserData))) : answer :=
  match rooms !! roomId with
  | None => IsNull
  | Some room =>
      match map_get userId room with
      | Some user => IsUser user
      | None => IsUndefined
      end
  end.

(** [m.has(k)] *)
Definition map_has {V : Type} (k : string) (m : list (string * V)) : bool :=
  bool_decide (k ∈ m.*1).

(** [userExists(roomId, userId)] *)
Definition userExists (roomId userId : string)
    (rooms : gmap string (list (string * UserData))) : bool :=
  match rooms !! roomId with
  | None => false
  | Some room => map_has userId room
  end.

(** *** Sequences of calls *)

Inductive RoomCall :=
| AddUser (roomId userId : string) (username : value) (now : Z)
| RemoveUser (roomId userId : string).

Definition room_call (c : RoomCall) (rooms : gmap string (list (string * UserData)))
  : gmap string (list (string * UserData)) :=
  match c with
  | AddUser roomId userId username now => (addUser roomId userId username now rooms).2
  | RemoveUser roomId userId => (removeUser roomId userId rooms).2
  end.

Fixpoint room_calls (cs : list RoomCall)
    (rooms : gmap string (list (string * UserData)))
  : gmap string (list (string * UserData)) :=
  match cs with
  | [] => rooms
  | c :: cs => room_calls cs (room_call c rooms)
  end.

(** What every room of a manager satisfies after any sequence of calls: it
    has a user, no user id twice, and palette colors only. *)
Definition rooms_ok (rooms : gmap string (list (string * UserData))) : Prop :=
  ∀ roomId room, rooms !! roomId = Some room →
    room ≠ [] ∧ NoDup room.*1 ∧
    Forall (λ entry, color entry.2 ∈ availableColors) room.

(** The users [joiners] (id, name, time of joining) join a room in turn. *)
Definition joins (roomId : string) (joiners : list (string * value * Z))
  : list RoomCall :=
  (λ j, AddUser roomId j.1.1 j.1.2 j.2) <$> joiners.

End Rooms.

(** ** Presence: joining, cursors, leaving (server.js)

  These handlers also use the room manager and change the adapter's table,
  so they run against the three pieces of server state together. *)

Module Presence.
Import JS Server Rooms.

Record World := mkWorld {
  io_sids : gmap string (list string);
  io_rooms : gmap string (list (string * UserData));
  io_state : gmap string (@Ledger.RoomState (gmap string value))
}.

(** What a handler leaves: the state, the events it emitted in order, and
    the error it threw, if any. *)
Record Result := mkResult {
  after : World;
  emits : list Emit;
  error : option string
}.

(** [socket.join(room)]: the room is added to the socket's set of rooms,
    once. *)
Definition socket_join (sids : gmap string (list string)) (socket_id room : string)
  : gmap string (list string) :=
  let rooms := socket_rooms sids socket_id in
  if bool_decide (room ∈ rooms) then sids
  else <[socket_id := rooms ++ [room]]> sids.

(** [socket.emit(event, ...args)]: to this socket's client only. *)
Definition socket_emit (socket_id event : string) (args : list value) : Emit :=
  mkEmit {[socket_id]} event args.

(** [a || b] *)
Definition or_else (a b : value) : value := if truthy a then a else b.

(** [socket.on('join-room', (data) => ...)]; [now] is the [Date.now()] of
    [addUser].  Rooms are identified by strings throughout this development:
    for a payload whose [roomId] is a truthy value of another type the
    result is [None], outside the embedding. *)
Definition on_join_room (socket_id : string) (now : Z) (data : value) (w : World)
  : option Result :=
  match get data "roomId" with
  | Throw e => Some (mkResult w [] (Some e))
  | Normal roomId =>
      let roomId := or_else roomId (VString "default-room") in
      match get data "username" with
      | Throw e => Some (mkResult w [] (Some e))
      | Normal username =>
          let username :=
            or_else username (VString ("User-" +:+ String.substring 0 5 socket_id)) in
          match roomId with
          | VString roomId =>
              (* Join the room *)
              let sids := socket_join (io_sids w) socket_id roomId in
              (* Add user to room manager *)
              let '(userColor, rooms) :=
                addUser roomId socket_id username now (io_rooms w) in
              (* Send current drawing state to the new user *)
              let '(currentState, state) := Ledger.getState roomId (io_state w) in
              Some (mkResult (mkWorld sids rooms state)
                [socket_emit socket_id "initial-state"
                   [VObject
                      {["operations" := VArray (VObject <$> Ledger.operations currentState);
                        "users" := VArray (getUsers roomId rooms);
                        "userColor" := VString userColor]}];
                 (* Notify other users about new user *)
                 socket_to_emit sids socket_id roomId "user-joined"
                   [VObject
                      {["userId" := VString socket_id;
                        "username" := username;
                        "color" := VString userColor]}]]
                None)
          | _ => None
          end
      end
  end.

(** [socket.on('cursor-move', (data) => ...)] *)
Definition on_cursor_move (socket_id : string) (data : value) (w : World) : Result :=
  let roomId := roomIdOf (io_sids w) socket_id in
  match get data "x" with
  | Throw e => mkResult w [] (Some e)
  | Normal x =>
      match get data "y" with
      | Throw e => mkResult w [] (Some e)
      | Normal y =>
          (* Broadcast cursor position to other users *)
          mkResult w
            [socket_to_emit (io_sids w) socket_id roomId "cursor-move"
               [VObject {["userId" := VString socket_id; "x" := x; "y" := y]}]]
            None
      end
  end.

(** [user?.username] *)
Definition optional_username (user : answer) : value :=
  match user with
  | IsUser user => username user
  | _ => VUndefined
  end.

(** [socket.on('disconnect', () => ...)].  The room identifier is a
    non-empty string, so the test [if (roomId)] passes. *)
Definition on_disconnect (socket_id : string) (w : World) : Result :=
  let roomId := roomIdOf (io_sids w) socket_id in
  let '(user, rooms) := removeUser roomId socket_id (io_rooms w) in
  (* Notify other users *)
  mkResult (mkWorld (io_sids w) rooms (io_state w))
    [socket_to_emit (io_sids w) socket_id roomId "user-left"
       [VObject {["userId" := VString socket_id;
                 "username" := optional_username user]}]]
    None.

End Presence.

(** ** The canvas manager: collecting a stroke (canvas.js)

  The manager paints on the browser's 2D context and collects the points of
  the stroke in progress.  The calls on the context do not touch the fields
  below and are left out; the fields and the values the methods return are
  embedded as they are.  The width and height of a canvas element are
  non-negative integers. *)

Module Canvas.
Import JS.

(** [Math.min(a, b)] and [Math.max(a, b)] on numbers: [NaN] if either is. *)
Definition math_min (a b : number) : number :=
  match a, b with
  | NaN, _ | _, NaN => NaN
  | _, _ => if number_lt b a then b else a
  end.

Definition math_max (a b : number) : number :=
  match a, b with
  | NaN, _ | _, NaN => NaN
  | _, _ => if number_lt a b then b else a
  end.

Record CanvasManager := mkCanvasManager {
  width : N;
  height : N;
  isDrawing : bool;
  currentPath : list (number * number);
  tool : value;
  color : value;
  strokeWidth : value;
  lastPoint : option (number * number)
}.

(** [setTool(tool)], [setColor(color)], [setStrokeWidth(width)] *)
Definition setTool (tool : value) (m : CanvasManager) : CanvasManager :=
  mkCanvasManager (width m) (height m) (isDrawing m) (currentPath m)
    tool (color m) (strokeWidth m) (lastPoint m).

Definition setColor (color : value) (m : CanvasManager) : CanvasManager :=
  mkCanvasManager (width m) (height m) (isDrawing m) (currentPath m)
    (tool m) color (strokeWidth m) (lastPoint m).

Definition setStrokeWidth (strokeWidth : value) (m : CanvasManager) : CanvasManager :=
  mkCanvasManager (width m) (height m) (isDrawing m) (currentPath m)
    (tool m) (color m) strokeWidth (lastPoint m).

(** [clampToCanvas(x, y)] *)
Definition clampToCanvas (x y : number) (m : CanvasManager) : number * number :=
  (math_max (of_Z 0) (math_min x (of_Z (Z.of_N (width m)))),
   math_max (of_Z 0) (math_min y (of_Z (Z.of_N (height m))))).

(** The object [{ x, y }]. *)
Definition point_object (p : number * number) : value :=
  VObject {["x" := VNumber p.1; "y" := VNumber p.2]}.

(** The object [{ points, tool: this.tool, color: this.color,
    strokeWidth: this.strokeWidth }]. *)
Definition path_data (points : list value) (m : CanvasManager) : value :=
  VObject {["points" := VArray points; "tool" := tool m;
            "color" := color m; "strokeWidth" := strokeWidth m]}.

(** [startDrawing(x, y)] *)
Definition startDrawing (x y : number) (m : CanvasManager) : CanvasManager :=
  let clamped := clampToCanvas x y m in
  mkCanvasManager (width m) (height m) true [clamped]
    (tool m) (color m) (strokeWidth m) (Some clamped).

(** [draw(x, y)]; [None] is [null].  [currentPath[length - 2]] is
    [undefined] when the path has a single point. *)
Definition draw (x y : number) (m : CanvasManager) : option value * CanvasManager :=
  if negb (isDrawing m) then (None, m) else
  let clamped := clampToCanvas x y m in
  let path := currentPath m ++ [clamped] in
  let previous :=
    if bool_decide (length path < 2) then VUndefined
    else default VUndefined (point_object <$> path !! (length path - 2)) in
  (Some (path_data [previous; point_object clamped] m),
   mkCanvasManager (width m) (height m) (isDrawing m) path
     (tool m) (color m) (strokeWidth m) (Some clamped)).

(** [stopDrawing()] *)
Definition stopDrawing (m : CanvasManager) : option value * CanvasManager :=
  if negb (isDrawing m) then (None, m) else
  let pathData := path_data (point_object <$> currentPath m) m in
  (Some pathData,
   mkCanvasManager (width m) (height m) false []
     (tool m) (color m) (strokeWidth m) None).

(** A whole stroke as main.js drives it: the pointer goes down at [start],
    moves through [moves], and goes up. *)
Definition stroke (start : number * number) (moves : list (number * number))
    (m : CanvasManager) : option value * CanvasManager :=
  stopDrawing
    (foldl (λ m p, (draw p.1 p.2 m).2) (startDrawing start.1 start.2 m) moves).

(** A manager set up as the toolbar of main.js can set it up. *)
Definition sample_canvas : CanvasManager :=
  mkCanvasManager 800 600 false [] (VString "brush") (VString "#AbC123")
    (VNumber (of_Z 5)) None.

End Canvas.

(** ** The client's replica of the log (websocket.js)

  The web socket manager keeps a copy of the room's operations and drives
  the canvas manager it was constructed with.  Its handlers are embedded on
  the messages the server sends: an operation is an object, an undo message
  carries an [operationId], a redo message an operation.  The calls on the
  canvas manager are returned in order; what the handlers write to the page
  and to the console is left out. *)

Module Client.
Import JS Server.

(** The calls the manager makes on its canvas manager. *)
Inductive CanvasCall :=
| DrawPath (pathData : gmap string value)
| RedrawAll (operations : list (gmap string value))
| Clear.

Record WebSocketManager := mkWebSocketManager {
  operations : list (gmap string value);
  operationIndex : gmap string (gmap string value);
  userColor : value
}.

(** [a === b] on values that arrived in different messages: two objects or
    two arrays are then never the same object. *)
Definition strict_equals (a b : value) : bool :=
  match a, b with
  | VUndefined, VUndefined => true
  | VNull, VNull => true
  | VBool a, VBool b => bool_decide (a = b)
  | VNumber (Finite a), VNumber (Finite b) => bool_decide (a = b)
  | VNumber PosInfinity, VNumber PosInfinity => true
  | VNumber NegInfinity, VNumber NegInfinity => true
  | VString a, VString b => bool_decide (a = b)
  | _, _ => false
  end.

(** The property key an operation id denotes: a string is its own key, and
    [undefined] has the key "undefined".  The ids the server assigns are
    strings. *)
Definition key_of (v : value) : string :=
  match v with
  | VString s => s
  | _ => "undefined"
  end.

(** [array.findIndex(p)]; [None] is [-1]. *)
Fixpoint findIndex {A : Type} (p : A → bool) (l : list A) : option nat :=
  match l with
  | [] => None
  | x :: l => if p x then Some 0 else S <$> findIndex p l
  end.

(** [handleInitialState(data)] for [data.operations] and [data.userColor];
    the index is not reset. *)
Definition handleInitialState (ops : list (gmap string value)) (color : value)
    (c : WebSocketManager) : WebSocketManager * list CanvasCall :=
  (mkWebSocketManager ops
     (foldl (λ index op, <[operation_id op := op]> index) (operationIndex c) ops)
     color,
   DrawPath <$> ops).

(** [handleRemoteDraw(data)] *)
Definition handleRemoteDraw (data : gmap string value) (c : WebSocketManager)
  : WebSocketManager * list CanvasCall :=
  (mkWebSocketManager (operations c ++ [data])
     (<[operation_id data := data]> (operationIndex c)) (userColor c),
   [DrawPath data]).

(** [handleUndo(data)] for [data.operationId] *)
Definition handleUndo (operationId : value) (c : WebSocketManager)
  : WebSocketManager * list CanvasCall :=
  let index :=
    findIndex (λ op, strict_equals (default VUndefined (op !! "id")) operationId)
      (operations c) in
  let c :=
    match index with
    | Some index =>
        mkWebSocketManager (delete index (operations c))
          (delete (key_of operationId) (operationIndex c)) (userColor c)
    | None => c
    end in
  (c, [RedrawAll (operations c)]).

(** [handleRedo(data)] for [data.operation] *)
Definition handleRedo (operation : gmap string value) (c : WebSocketManager)
  : WebSocketManager * list CanvasCall :=
  (mkWebSocketManager (operations c ++ [operation])
     (<[operation_id operation := operation]> (operationIndex c)) (userColor c),
   [DrawPath operation]).

(** [handleClearCanvas()] *)
Definition handleClearCanvas (c : WebSocketManager)
  : WebSocketManager * list CanvasCall :=
  (mkWebSocketManager [] ∅ (userColor c), [Clear]).


(** *** Receiving what the server emits

    The listeners registered by [connect]: an emitted event reaches the
    client when its socket is among the recipients, and is passed to the
    handler of its name.  Events of other names concern the page only. *)

Definition as_objects (vs : list value) : option (list (gmap string value)) :=
  mapM (λ v, match v with VObject o => Some o | _ => None end) vs.

Definition receive (e : Emit) (c : WebSocketManager)
  : WebSocketManager * list CanvasCall :=
  match args e with
  | [VObject data] =>
      if bool_decide (event e = "draw") then handleRemoteDraw data c
      else if bool_decide (event e = "undo")
      then handleUndo (default VUndefined (data !! "operationId")) c
      else if bool_decide (event e = "redo") then
        match data !! "operation" with
        | Some (VObject operation) => handleRedo operation c
        | _ => (c, [])
        end
      else if bool_decide (event e = "initial-state") then
        match data !! "operations" with
        | Some (VArray vs) =>
            match as_objects vs with
            | Some ops =>
                handleInitialState ops (default VUndefined (data !! "userColor")) c
            | None => (c, [])
            end
        | _ => (c, [])
        end
      else (c, [])
  | [] => if bool_decide (event e = "clear-canvas") then handleClearCanvas c else (c, [])
  | _ => (c, [])
  end.

Definition deliver (socket_id : string) (c : WebSocketManager) (e : Emit)
  : WebSocketManager :=
  if bool_decide (socket_id ∈ recipients e) then (receive e c).1 else c.

(** *** Server and client together

    What a socket asks of the server, with the clock readings and the
    random number its handling draws. *)
Inductive Intent :=
| SendDraw (data : value) (now1 now2 : Z) (random : string)
| SendUndo
| SendRedo
| SendClearCanvas.

Definition serve (sids : gmap string (list string)) (sender : string)
    (intent : Intent)
    (stateManager : gmap string (@Ledger.RoomState (gmap string value)))
  : Outcome :=
  match intent with
  | SendDraw data now1 now2 random =>
      on_draw sids sender now1 now2 random data stateManager
  | SendUndo => on_undo sids sender stateManager
  | SendRedo => on_redo sids sender stateManager
  | SendClearCanvas => on_clear_canvas sids sender stateManager
  end.

(** What a handler that returns leaves: the server's state, and the client
    of socket [socket_id] after it has received, in order, what was emitted
    to it. *)
Definition handled (sids : gmap string (list string)) (socket_id : string)
    (request : string * Intent)
    (system : gmap string (@Ledger.RoomState (gmap string value)) * WebSocketManager)
  : gmap string (@Ledger.RoomState (gmap string value)) * WebSocketManager :=
  let out := serve sids request.1 request.2 system.1 in
  (stateManager out, foldl (deliver socket_id) system.2 (emitted out)).

(** The server handles one intent.  No listener of server.js catches an
    exception, so one thrown by a handler leaves the listener; what becomes
    of the process then is not in the source, and the run ends there:
    [None]. *)
Definition step (sids : gmap string (list string)) (socket_id : string)
    (request : string * Intent)
    (system : gmap string (@Ledger.RoomState (gmap string value)) * WebSocketManager)
  : option (gmap string (@Ledger.RoomState (gmap string value)) * WebSocketManager) :=
  match thrown (serve sids request.1 request.2 system.1) with
  | Some _ => None
  | None => Some (handled sids socket_id request system)
  end.

Fixpoint steps (sids : gmap string (list string)) (socket_id : string)
    (requests : list (string * Intent))
    (system : gmap string (@Ledger.RoomState (gmap string value)) * WebSocketManager)
  : option (gmap string (@Ledger.RoomState (gmap string value)) * WebSocketManager) :=
  match requests with
  | [] => Some system
  | request :: requests =>
      match step sids socket_id request system with
      | Some system => steps sids socket_id requests system
      | None => None
      end
  end.

(** Whether the handling of a request throws: only a draw can, when
    [validateDrawingData] throws on its payload. *)
Definition throws (request : string * Intent) : bool :=
  match request.2 with
  | SendDraw data _ _ _ =>
      match validateDrawingData data with
      | Throw _ => true
      | Normal _ => false
      end
  | _ => false
  end.







End Client.

(** ** Calls by room *)

Module LedgerCalls.
Import Ledger.

(** The room a call is made on. *)
Definition roomOfCall {Operation : Type} (c : @Call Operation) : string :=
  match c with
  | AddOperation roomId _ => roomId
  | Undo roomId => roomId
  | Redo roomId => roomId
  | RemoveOperation roomId _ => roomId
  | ClearState roomId => roomId
  end.

(** The positions of a room's history: the log followed by the undone
    operations, latest undone first. *)
Definition timeline {Operation : Type} (state : @RoomState Operation)
  : list Operation :=
  operations state ++ reverse (undoStack state).

End LedgerCalls.

(** * Properties of the drawing state manager *)

Module LedgerFacts.
Import Ledger.

(** *** The index object *)

Lemma proto_inherited : "__proto__" ∈ prototype_names.
Proof. apply (bool_decide_unpack _). by vm_compute. Qed.

Lemma index_get_own (index : gmap string nat) k :
  k ∉ prototype_names → index_get index k = Position <$> index !! k.
Proof.
  intros Hk. unfold index_get.
  rewrite bool_decide_eq_false_2 by (intros ->; apply Hk, proto_inherited).
  destruct (index !! k); [done|]. by rewrite bool_decide_eq_false_2.
Qed.

Lemma index_get_position (index : gmap string nat) k n :
  index_get index k = Some (Position n) ↔ index !! k = Some n ∧ k ≠ "__proto__".
Proof.
  unfold index_get. case_bool_decide as Hp.
  - split; [done|]. by intros [_ ?].
  - destruct (index !! k) as [m|].
    + split; [by intros [= ->] | by intros [[= ->] _]].
    + case_bool_decide; split; try done; by intros [? _].
Qed.

Lemma index_get_inherited (index : gmap string nat) k :
  index_get index k = Some Inherited
  ↔ k ∈ prototype_names ∧ (k = "__proto__" ∨ index !! k = None).
Proof.
  unfold index_get. case_bool_decide as Hp.
  - subst k. split; [|done]. intros _. split; [apply proto_inherited | by left].
  - destruct (index !! k) as [m|].
    + split; [done|]. by intros [_ [?|?]].
    + case_bool_decide as Hin; split; try done.
      * intros _. split; [done | by right].
      * by intros [? _].
Qed.

Lemma index_get_None (index : gmap string nat) k :
  index_get index k = None ↔ (k ∉ prototype_names) ∧ index !! k = None.
Proof.
  unfold index_get. case_bool_decide as Hp.
  - subst k. split; [done|]. intros [Hk _]. destruct Hk. apply proto_inherited.
  - destruct (index !! k) as [m|].
    + split; [done | by intros [_ ?]].
    + case_bool_decide as Hin; split; try done. by intros [? _].
Qed.

Lemma index_set_own (index : gmap string nat) k n :
  k ≠ "__proto__" → index_set index k n = <[k := n]> index.
Proof. intros Hk. unfold index_set. by rewrite bool_decide_eq_false_2. Qed.

Lemma index_set_lookup_ne (index : gmap string nat) k k' n :
  k ≠ k' → index_set index k n !! k' = index !! k'.
Proof.
  intros Hne. unfold index_set. case_bool_decide; [done|].
  by rewrite lookup_insert_ne.
Qed.

Lemma index_set_lookup (index : gmap string nat) k n :
  k ≠ "__proto__" → index_set index k n !! k = Some n.
Proof. intros Hk. by rewrite index_set_own, lookup_insert_eq. Qed.

Lemma index_set_Some (index : gmap string nat) k n k' i :
  index_set index k n !! k' = Some i →
  (k' = k ∧ i = n) ∨ index !! k' = Some i.
Proof.
  unfold index_set. case_bool_decide; [by right|].
  rewrite lookup_insert. case_decide; [|by right]. intros [= <-]. by left.
Qed.

Lemma index_set_set (index : gmap string nat) k n m :
  index_set (index_set index k n) k m = index_set index k m.
Proof. unfold index_set. case_bool_decide; [done|]. by rewrite insert_insert_eq. Qed.

Lemma index_set_delete (index : gmap string nat) k n :
  index_set (index_delete index k) k n = index_set index k n.
Proof.
  unfold index_set, index_delete. case_bool_decide; [done|].
  by rewrite insert_delete_eq.
Qed.

Lemma index_delete_set (index : gmap string nat) k n :
  index !! k = None → index_delete (index_set index k n) k = index.
Proof.
  intros Hk. unfold index_set, index_delete. case_bool_decide; [done|].
  by rewrite delete_insert_id.
Qed.

Section facts.
Context {Operation : Type} (id : Operation → string).
Implicit Types (roomStates : gmap string (@RoomState Operation)).
Implicit Types (state : @RoomState Operation) (ops : list Operation).
Implicit Types (roomId : string) (operation : Operation).

(** *** The view of one room *)

Lemma ledger_default roomId roomStates :
  ledger roomId roomStates = default emptyRoomState (roomStates !! roomId).
Proof. unfold ledger, _getRoomState. by destruct (roomStates !! roomId). Qed.

Lemma _getRoomState_ledger roomId roomStates :
  _getRoomState roomId roomStates
  = (ledger roomId roomStates, <[roomId := ledger roomId roomStates]> roomStates).
Proof.
  unfold ledger, _getRoomState.
  destruct (roomStates !! roomId) as [state|] eqn:E; simpl; [|done].
  by rewrite insert_id.
Qed.

Lemma _getRoomState_known roomId roomStates state :
  roomStates !! roomId = Some state →
  _getRoomState roomId roomStates = (state, roomStates).
Proof. unfold _getRoomState. by intros ->. Qed.

Lemma ledger_insert roomId roomId' state roomStates :
  ledger roomId (<[roomId' := state]> roomStates)
  = if decide (roomId' = roomId) then state else ledger roomId roomStates.
Proof.
  rewrite !ledger_default, lookup_insert. by case_decide.
Qed.

Lemma ledger_insert_eq roomId state roomStates :
  ledger roomId (<[roomId := state]> roomStates) = state.
Proof. rewrite ledger_insert. by case_decide. Qed.

Lemma ledger_insert_ne roomId roomId' state roomStates :
  roomId' ≠ roomId →
  ledger roomId (<[roomId' := state]> roomStates) = ledger roomId roomStates.
Proof. intros. rewrite ledger_insert. by case_decide. Qed.

Lemma ledger_empty roomId : ledger roomId (∅ : gmap string (@RoomState Operation)) = emptyRoomState.
Proof. by rewrite ledger_default, lookup_empty. Qed.

(** *** What each method leaves in the room it is called on *)

Lemma addOperation_eq roomId operation roomStates :
  addOperation id roomId operation roomStates
  = (operation,
     <[roomId :=
         mkRoomState (operations (ledger roomId roomStates) ++ [operation]) []
           (index_set (operationIndex (ledger roomId roomStates)) (id operation)
              (length (operations (ledger roomId roomStates))))]> roomStates).
Proof.
  unfold addOperation. rewrite _getRoomState_ledger. simpl.
  rewrite insert_insert_eq, length_app. simpl.
  by replace (length (operations (ledger roomId roomStates)) + 1 - 1)
    with (length (operations (ledger roomId roomStates))) by lia.
Qed.

Lemma undo_nothing roomId roomStates :
  operations (ledger roomId roomStates) = [] →
  undo id roomId roomStates = (None, <[roomId := ledger roomId roomStates]> roomStates).
Proof.
  intros E. unfold undo. rewrite _getRoomState_ledger. cbv beta iota zeta. by rewrite E.
Qed.

Lemma undo_snoc roomId roomStates ops operation :
  operations (ledger roomId roomStates) = ops ++ [operation] →
  undo id roomId roomStates
  = (Some operation,
     <[roomId :=
         mkRoomState ops (undoStack (ledger roomId roomStates) ++ [operation])
           (index_delete (operationIndex (ledger roomId roomStates)) (id operation))]>
       roomStates).
Proof.
  intros E. unfold undo. rewrite _getRoomState_ledger. cbv beta iota zeta.
  rewrite E, last_snoc. simpl.
  by rewrite removelast_last, insert_insert_eq.
Qed.

Lemma redo_nothing roomId roomStates :
  undoStack (ledger roomId roomStates) = [] →
  redo id roomId roomStates = (None, <[roomId := ledger roomId roomStates]> roomStates).
Proof.
  intros E. unfold redo. rewrite _getRoomState_ledger. cbv beta iota zeta. by rewrite E.
Qed.

Lemma redo_snoc roomId roomStates undone operation :
  undoStack (ledger roomId roomStates) = undone ++ [operation] →
  redo id roomId roomStates
  = (Some operation,
     <[roomId :=
         mkRoomState (operations (ledger roomId roomStates) ++ [operation]) undone
           (index_set (operationIndex (ledger roomId roomStates)) (id operation)
              (length (operations (ledger roomId roomStates))))]> roomStates).
Proof.
  intros E. unfold redo. rewrite _getRoomState_ledger. cbv beta iota zeta.
  rewrite E, last_snoc. simpl.
  rewrite removelast_last, insert_insert_eq, length_app. simpl.
  by replace (length (operations (ledger roomId roomStates)) + 1 - 1)
    with (length (operations (ledger roomId roomStates))) by lia.
Qed.

Lemma clearState_eq roomId roomStates :
  clearState roomId roomStates = <[roomId := emptyRoomState]> roomStates.
Proof.
  unfold clearState. rewrite _getRoomState_ledger. simpl.
  by rewrite insert_insert_eq.
Qed.

Lemma removeOperation_absent roomId operationId roomStates :
  index_get (operationIndex (ledger roomId roomStates)) operationId = None →
  removeOperation id roomId operationId roomStates
  = <[roomId := ledger roomId roomStates]> roomStates.
Proof.
  intros E. unfold removeOperation. rewrite _getRoomState_ledger. cbv beta iota zeta.
  by rewrite E.
Qed.

Lemma removeOperation_present roomId operationId roomStates index :
  index_get (operationIndex (ledger roomId roomStates)) operationId = Some index →
  removeOperation id roomId operationId roomStates
  = <[roomId :=
        mkRoomState
          (delete (splice_start index) (operations (ledger roomId roomStates)))
          (undoStack (ledger roomId roomStates))
          (index_each id 0
             (delete (splice_start index) (operations (ledger roomId roomStates)))
             ∅)]>
      roomStates.
Proof.
  intros E. unfold removeOperation. rewrite _getRoomState_ledger. cbv beta iota zeta.
  rewrite E. simpl. by rewrite insert_insert_eq.
Qed.

(** *** The index built by [_rebuildIndex] *)

Lemma index_each_snoc ops operation n (ix : gmap string nat) :
  index_each id n (ops ++ [operation]) ix
  = index_set (index_each id n ops ix) (id operation) (n + length ops).
Proof.
  revert n ix. induction ops as [|op ops IH]; intros n ix; simpl.
  - by rewrite Nat.add_0_r.
  - rewrite IH. f_equal. lia.
Qed.

Lemma index_each_fresh ops n (ix : gmap string nat) k :
  k ∉ id <$> ops → index_each id n ops ix !! k = ix !! k.
Proof.
  revert n ix. induction ops as [|op ops IH]; intros n ix Hk; [done|].
  simpl in *. apply not_elem_of_cons in Hk as [Hne Hk].
  rewrite IH by done. by rewrite index_set_lookup_ne.
Qed.

Lemma index_each_lookup ops n (ix : gmap string nat) j op :
  NoDup (id <$> ops) → ops !! j = Some op → id op ≠ "__proto__" →
  index_each id n ops ix !! id op = Some (n + j).
Proof.
  revert n ix j. induction ops as [|op' ops IH]; intros n ix j Hnd Hj Hp; [done|].
  simpl in Hnd. apply NoDup_cons in Hnd as [Hfresh Hnd].
  destruct j as [|j]; simpl in *.
  - injection Hj as ->. rewrite index_each_fresh by done.
    rewrite index_set_lookup by done. f_equal. lia.
  - rewrite (IH (S n) _ j) by done. f_equal. lia.
Qed.

Lemma index_each_Some ops n (ix : gmap string nat) k i :
  index_each id n ops ix !! k = Some i →
  ix !! k = Some i ∨ ∃ j op, ops !! j = Some op ∧ id op = k ∧ i = n + j.
Proof.
  revert n ix. induction ops as [|op ops IH]; intros n ix Hk; [by left|].
  simpl in Hk. apply IH in Hk as [Hk|(j & op' & Hj & Hid & ->)].
  - apply index_set_Some in Hk as [[-> ->]|Hk]; [|by left].
    right. exists 0, op. split_and!; [done|done|lia].
  - right. exists (S j), op'. split_and!; [done|done|lia].
Qed.

Lemma index_each_proto ops n (ix : gmap string nat) :
  index_each id n ops ix !! "__proto__" = ix !! "__proto__".
Proof.
  revert n ix. induction ops as [|op ops IH]; intros n ix; [done|].
  simpl. rewrite IH. unfold index_set. case_bool_decide as Hp; [done|].
  by rewrite lookup_insert_ne.
Qed.

(** Every rebuilt entry points at the operation that carries its id. *)
Lemma rebuilt_sound ops k i :
  index_each id 0 ops ∅ !! k = Some i →
  ∃ op, ops !! i = Some op ∧ id op = k.
Proof.
  intros Hk. apply index_each_Some in Hk as [Hk|(j & op & Hj & Hid & ->)].
  - by rewrite lookup_empty in Hk.
  - by exists op.
Qed.

Lemma rebuilt_consistent ops undone :
  NoDup (id <$> ops) → "__proto__" ∉ id <$> ops →
  index_consistent id (mkRoomState ops undone (index_each id 0 ops ∅)).
Proof.
  intros Hnd Hp. split; simpl.
  - intros k i. apply rebuilt_sound.
  - intros i op Hi. rewrite (index_each_lookup _ _ _ i); [done..|].
    intros Heq. apply Hp. rewrite <-Heq.
    apply list_elem_of_fmap_2. by eapply list_elem_of_lookup_2.
Qed.

Lemma consistent_NoDup state :
  index_consistent id state → NoDup (id <$> operations state).
Proof.
  intros [_ Hops]. apply NoDup_alt. intros i j k Hi Hj.
  apply list_lookup_fmap_Some_1 in Hi as (oi & -> & Hi).
  apply list_lookup_fmap_Some_1 in Hj as (oj & Heq & Hj).
  apply Hops in Hi. apply Hops in Hj. rewrite Heq in Hi. congruence.
Qed.

(** *** Each method keeps rooms well formed *)

Lemma well_formed_weaken k pending state :
  well_formed id (k :: pending) state → well_formed id pending state.
Proof.
  intros (Hc & Hnd & Hf). split_and!; [done..|].
  intros k' Hk' Hin. apply (Hf k' Hk'). by right.
Qed.

Lemma well_formed_empty pending : well_formed id pending emptyRoomState.
Proof.
  split_and!; [done|constructor|]. intros k Hk. by apply elem_of_nil in Hk.
Qed.

Lemma well_formed_add pending state operation :
  well_formed id (id operation :: pending) state →
  id operation ∉ pending →
  well_formed id pending
    (mkRoomState (operations state ++ [operation]) []
       (index_set (operationIndex state) (id operation) (length (operations state)))).
Proof.
  unfold well_formed, held_ids. simpl.
  intros (Hix & Hnd & Hf) Hfresh.
  assert (Hnew : id operation ∉ id <$> (operations state ++ undoStack state)).
  { intros Hin. apply (Hf _ Hin). by left. }
  rewrite fmap_app in Hnd, Hnew, Hf.
  apply NoDup_app in Hnd as (Hnd & _ & _).
  apply not_elem_of_app in Hnew as [Hnew _].
  split_and!; simpl.
  - by rewrite index_each_snoc, Hix.
  - rewrite app_nil_r, fmap_app. apply NoDup_app. split_and!; [done| |].
    + intros k Hk Hin. apply list_elem_of_singleton in Hin as ->. done.
    + apply NoDup_singleton.
  - intros k Hk. rewrite app_nil_r, fmap_app in Hk.
    apply elem_of_app in Hk as [Hk|Hk].
    + intros Hin. apply (Hf k); [apply elem_of_app; by left | by right].
    + apply list_elem_of_singleton in Hk as ->. done.
Qed.

Lemma held_ids_move ops undone operation :
  id <$> (ops ++ (undone ++ [operation]))
  ≡ₚ id <$> ((ops ++ [operation]) ++ undone).
Proof.
  apply fmap_Permutation. rewrite <-(assoc app).
  apply Permutation_app_head, Permutation_app_comm.
Qed.

Lemma well_formed_undo pending state ops operation :
  well_formed id pending state →
  operations state = ops ++ [operation] →
  well_formed id pending
    (mkRoomState ops (undoStack state ++ [operation])
       (index_delete (operationIndex state) (id operation))).
Proof.
  unfold well_formed, held_ids. simpl.
  intros (Hix & Hnd & Hf) E. rewrite E in *.
  assert (Hlog : NoDup (id <$> (ops ++ [operation]))).
  { rewrite fmap_app in Hnd. by apply NoDup_app in Hnd as (Hnd & _ & _). }
  rewrite fmap_app in Hlog. apply NoDup_app in Hlog as (_ & Hdisj & _).
  split_and!; simpl.
  - rewrite Hix, index_each_snoc. apply index_delete_set.
    rewrite index_each_fresh; [done|].
    intros Hin. apply (Hdisj _ Hin). simpl. by left.
  - by rewrite held_ids_move.
  - intros k Hk. rewrite held_ids_move in Hk. by apply Hf.
Qed.

Lemma well_formed_redo pending state undone operation :
  well_formed id pending state →
  undoStack state = undone ++ [operation] →
  well_formed id pending
    (mkRoomState (operations state ++ [operation]) undone
       (index_set (operationIndex state) (id operation) (length (operations state)))).
Proof.
  unfold well_formed, held_ids. simpl.
  intros (Hix & Hnd & Hf) E. rewrite E in *.
  rewrite held_ids_move in Hnd.
  split_and!; simpl.
  - by rewrite index_each_snoc, Hix.
  - done.
  - intros k Hk. apply Hf. by rewrite held_ids_move.
Qed.

Lemma well_formed_remove pending state index :
  well_formed id pending state →
  well_formed id pending
    (mkRoomState (delete index (operations state)) (undoStack state)
       (index_each id 0 (delete index (operations state)) ∅)).
Proof.
  unfold well_formed, held_ids. simpl.
  intros (Hc & Hnd & Hf).
  assert (Hsub : id <$> (delete index (operations state) ++ undoStack state)
                 `sublist_of` id <$> (operations state ++ undoStack state)).
  { apply fmap_sublist, sublist_app; [apply sublist_delete | done]. }
  split_and!; simpl.
  - done.
  - by eapply sublist_NoDup.
  - intros k Hk. apply Hf. by eapply sublist_subseteq.
Qed.

Lemma appended_NoDup_tail c cs :
  NoDup (appended id (c :: cs)) → NoDup (appended id cs).
Proof. destruct c; simpl; [|done..]. by intros [_ ?]%NoDup_cons. Qed.

Lemma call_well_formed c cs roomStates :
  NoDup (appended id (c :: cs)) →
  (∀ roomId, well_formed id (appended id (c :: cs)) (ledger roomId roomStates)) →
  ∀ roomId, well_formed id (appended id cs) (ledger roomId (call id c roomStates)).
Proof.
  intros Hnd Hwf roomId. destruct c as [r operation|r|r|r x|r]; simpl in *.
  - apply NoDup_cons in Hnd as [Hfresh _].
    rewrite addOperation_eq. simpl. rewrite ledger_insert.
    case_decide as Hr; [by apply well_formed_add|].
    eapply well_formed_weaken, Hwf.
  - destruct (last (operations (ledger r roomStates))) as [operation|] eqn:E.
    + apply last_Some in E as [ops E]. rewrite (undo_snoc _ _ _ _ E). simpl.
      rewrite ledger_insert. case_decide; [by apply well_formed_undo | done].
    + apply last_None in E. rewrite (undo_nothing _ _ E). simpl.
      rewrite ledger_insert. by case_decide.
  - destruct (last (undoStack (ledger r roomStates))) as [operation|] eqn:E.
    + apply last_Some in E as [undone E]. rewrite (redo_snoc _ _ _ _ E). simpl.
      rewrite ledger_insert. case_decide; [by apply well_formed_redo | done].
    + apply last_None in E. rewrite (redo_nothing _ _ E). simpl.
      rewrite ledger_insert. by case_decide.
  - destruct (index_get (operationIndex (ledger r roomStates)) x) as [index|] eqn:E.
    + rewrite (removeOperation_present _ _ _ _ E), ledger_insert.
      case_decide; [by apply well_formed_remove | done].
    + rewrite (removeOperation_absent _ _ _ E), ledger_insert. by case_decide.
  - rewrite clearState_eq, ledger_insert.
    case_decide; [apply well_formed_empty | done].
Qed.

Lemma calls_well_formed cs roomStates :
  NoDup (appended id cs) →
  (∀ roomId, well_formed id (appended id cs) (ledger roomId roomStates)) →
  ∀ roomId, well_formed id [] (ledger roomId (calls id cs roomStates)).
Proof.
  revert roomStates. induction cs as [|c cs IH]; intros roomStates Hnd Hwf; [done|].
  simpl. apply IH; [by eapply appended_NoDup_tail | by apply call_well_formed].
Qed.

Lemma reachable_well_formed roomStates roomId :
  reachable id roomStates → well_formed id [] (ledger roomId roomStates).
Proof.
  intros (cs & Hnd & ->). apply calls_well_formed; [done|].
  intros r. rewrite ledger_empty. apply well_formed_empty.
Qed.

(** *** Where held operations come from *)

Lemma call_held c roomStates roomId k :
  k ∈ held_ids id (ledger roomId (call id c roomStates)) →
  k ∈ held_ids id (ledger roomId roomStates) ∨ k ∈ appended id [c].
Proof.
  unfold held_ids.
  destruct c as [r operation|r|r|r x|r]; simpl.
  - rewrite addOperation_eq. simpl. rewrite ledger_insert.
    case_decide as Hr; [subst r|by left]. simpl.
    rewrite app_nil_r, !fmap_app, !elem_of_app. simpl.
    rewrite list_elem_of_singleton. intros [Hk|Hk].
    + left. by left.
    + by right.
  - intros Hk. left. revert Hk.
    destruct (last (operations (ledger r roomStates))) as [operation|] eqn:E.
    + apply last_Some in E as [ops E]. rewrite (undo_snoc _ _ _ _ E). simpl.
      rewrite ledger_insert. case_decide as Hr; [subst r|done]. simpl.
      by rewrite E, held_ids_move.
    + apply last_None in E. rewrite (undo_nothing _ _ E). simpl.
      rewrite ledger_insert. by case_decide; subst.
  - intros Hk. left. revert Hk.
    destruct (last (undoStack (ledger r roomStates))) as [operation|] eqn:E.
    + apply last_Some in E as [undone E]. rewrite (redo_snoc _ _ _ _ E). simpl.
      rewrite ledger_insert. case_decide as Hr; [subst r|done]. simpl.
      by rewrite E, held_ids_move.
    + apply last_None in E. rewrite (redo_nothing _ _ E). simpl.
      rewrite ledger_insert. by case_decide; subst.
  - intros Hk. left. revert Hk.
    destruct (index_get (operationIndex (ledger r roomStates)) x) as [index|] eqn:E.
    + rewrite (removeOperation_present _ _ _ _ E), ledger_insert.
      case_decide as Hr; [subst r|done]. simpl.
      apply sublist_subseteq, fmap_sublist, sublist_app; [apply sublist_delete|done].
    + rewrite (removeOperation_absent _ _ _ E), ledger_insert. by case_decide; subst.
  - intros Hk. left. revert Hk. rewrite clearState_eq, ledger_insert.
    case_decide; [|done]. simpl. by intros ?%elem_of_nil.
Qed.

Lemma calls_held cs roomStates roomId k :
  k ∈ held_ids id (ledger roomId (calls id cs roomStates)) →
  k ∈ held_ids id (ledger roomId roomStates) ∨ k ∈ appended id cs.
Proof.
  revert roomStates. induction cs as [|c cs IH]; intros roomStates; [by left|].
  simpl. intros [Hk|Hk]%IH.
  - apply call_held in Hk as [Hk|Hk]; [by left|]. right.
    destruct c; simpl in *; try by apply elem_of_nil in Hk.
    apply list_elem_of_singleton in Hk as ->. by left.
  - right. destruct c; simpl; [by right|done..].
Qed.

(** C1 (index consistency).  After any sequence of [addOperation], [undo],
    [redo], [removeOperation] and [clearState] calls on the initial manager
    in which the appended operations carry pairwise distinct ids, none of
    them ["__proto__"], every room has an index that is derivable from its
    operations list: each indexed id [k] is the id of the operation at
    position [index[k]], each listed operation is indexed at its own
    position, no id is listed twice, the indexed ids are exactly the listed
    ones, and the index equals the one [_rebuildIndex] computes from the
    list. *)
Theorem index_consistency cs roomId :
  NoDup (appended id cs) →
  "__proto__" ∉ appended id cs →
  let state := ledger roomId (calls id cs ∅) in
  index_consistent id state ∧
  NoDup (id <$> operations state) ∧
  dom (operationIndex state) = list_to_set (id <$> operations state) ∧
  operationIndex state = operationIndex (_rebuildIndex id state).
Proof.
  intros Hnd Hproto state.
  destruct (reachable_well_formed (calls id cs ∅) roomId) as (Hix & Hheld & _);
    [by exists cs|]. fold state in Hix, Hheld.
  assert (Hlog : NoDup (id <$> operations state)).
  { unfold held_ids in Hheld. rewrite fmap_app in Hheld.
    by apply NoDup_app in Hheld as (? & _ & _). }
  assert (Hplain : "__proto__" ∉ id <$> operations state).
  { intros Hin. destruct (calls_held cs ∅ roomId "__proto__") as [Hk|Hk]; [| |done].
    - unfold held_ids. fold state. rewrite fmap_app, elem_of_app. by left.
    - rewrite ledger_empty in Hk. by apply elem_of_nil in Hk. }
  assert (Hc : index_consistent id state).
  { pose proof (rebuilt_consistent _ (undoStack state) Hlog Hplain) as Hc.
    rewrite <-Hix in Hc. by destruct state. }
  split_and!; [done|done| |done].
  destruct Hc as [Hsound Hcomplete]. apply set_eq. intros k.
  rewrite elem_of_dom, elem_of_list_to_set, list_elem_of_fmap. split.
  - intros [i Hi]. apply Hsound in Hi as (op & Hi & <-).
    exists op. split; [done|]. by eapply list_elem_of_lookup_2.
  - intros (op & -> & Hin). apply list_elem_of_lookup_1 in Hin as [i Hi].
    exists i. by apply Hcomplete.
Qed.

(** C2 (append clears redo).  On every manager and room, after
    [addOperation(a); undo(); addOperation(b)] the undo stack of the room is
    empty, and [redo()] then returns [null] and leaves the manager as it
    was. *)
Theorem addOperation_clears_redo roomId a b roomStates :
  let after :=
    (addOperation id roomId b
       (undo id roomId (addOperation id roomId a roomStates).2).2).2 in
  undoStack (ledger roomId after) = [] ∧
  redo id roomId after = (None, after).
Proof.
  intros after. subst after. rewrite (addOperation_eq roomId b). simpl.
  rewrite ledger_insert_eq. split; [done|].
  rewrite redo_nothing; rewrite ledger_insert_eq; [|done].
  by rewrite insert_insert_eq.
Qed.

(** C3 (undo/redo round trip).  On every manager and room,
    [addOperation(a); undo(); redo()]: the undo returns [a], the redo
    returns [a] and leaves the manager exactly as it was after the append
    (operations, undo stack and index of every room); from the initial
    manager the operations of the room are then [[a]]. *)
Theorem undo_redo_round_trip roomId a roomStates :
  let added := (addOperation id roomId a roomStates).2 in
  (undo id roomId added).1 = Some a ∧
  redo id roomId (undo id roomId added).2 = (Some a, added) ∧
  operations
    (ledger roomId
       (redo id roomId (undo id roomId (addOperation id roomId a ∅).2).2).2)
  = [a].
Proof.
  assert (Hround : ∀ roomStates,
    let added := (addOperation id roomId a roomStates).2 in
    (undo id roomId added).1 = Some a ∧
    redo id roomId (undo id roomId added).2 = (Some a, added)).
  { clear roomStates. intros roomStates added. subst added.
    rewrite addOperation_eq. simpl.
    erewrite undo_snoc; [|by rewrite ledger_insert_eq].
    split; [done|]. simpl.
    erewrite redo_snoc; [|by rewrite ledger_insert_eq].
    rewrite !ledger_insert_eq. simpl.
    by rewrite !insert_insert_eq, index_set_delete, index_set_set. }
  intros added. destruct (Hround roomStates) as [Hundo Hredo].
  split_and!; [done..|].
  destruct (Hround ∅) as [_ ->]. simpl.
  rewrite addOperation_eq. simpl. by rewrite ledger_insert_eq, ledger_empty.
Qed.

(** *** Removal by id *)

Lemma removeOperation_other roomId roomId' x roomStates :
  roomId' ≠ roomId →
  ledger roomId' (removeOperation id roomId x roomStates) = ledger roomId' roomStates.
Proof.
  intros Hne.
  destruct (index_get (operationIndex (ledger roomId roomStates)) x) as [index|] eqn:E.
  - rewrite (removeOperation_present _ _ _ _ E). by apply ledger_insert_ne.
  - rewrite (removeOperation_absent _ _ _ E). by apply ledger_insert_ne.
Qed.

Lemma removeOperation_absent_ledger roomId x roomStates r :
  index_get (operationIndex (ledger roomId roomStates)) x = None →
  ledger r (removeOperation id roomId x roomStates) = ledger r roomStates.
Proof.
  intros E. rewrite (removeOperation_absent _ _ _ E), ledger_insert.
  case_decide; by subst.
Qed.

Lemma removed_id_gone state index operation :
  NoDup (id <$> operations state) →
  operations state !! index = Some operation →
  id operation ∉ id <$> delete index (operations state).
Proof.
  intros Hnd Hi Hin.
  apply list_elem_of_fmap in Hin as (op & Heq & Hin).
  apply list_elem_of_lookup_1 in Hin as [j Hj].
  rewrite list_lookup_delete in Hj.
  assert (Hlookup : ∀ m o, operations state !! m = Some o →
                           (id <$> operations state) !! m = Some (id o))
    by (intros m o Hm; by rewrite list_lookup_fmap, Hm).
  apply Hlookup in Hi. case_decide; apply Hlookup in Hj; rewrite <-Heq in Hj.
  - pose proof (NoDup_lookup _ _ _ _ Hnd Hi Hj). lia.
  - pose proof (NoDup_lookup _ _ _ _ Hnd Hi Hj). lia.
Qed.

Lemma removeOperation_gone roomId x roomStates :
  well_formed id [] (ledger roomId roomStates) → x ∉ prototype_names →
  index_get (operationIndex (ledger roomId (removeOperation id roomId x roomStates))) x
  = None.
Proof.
  intros (Hix & Hheld & _) Hx.
  assert (Hlog : NoDup (id <$> operations (ledger roomId roomStates))).
  { unfold held_ids in Hheld. rewrite fmap_app in Hheld.
    by apply NoDup_app in Hheld as (? & _ & _). }
  destruct (index_get (operationIndex (ledger roomId roomStates)) x)
    as [index|] eqn:E.
  - rewrite (removeOperation_present _ _ _ _ E), ledger_insert_eq. simpl.
    rewrite index_get_own in E by done.
    destruct (operationIndex (ledger roomId roomStates) !! x) as [i|] eqn:Ei;
      [|done]. injection E as <-. simpl.
    rewrite Hix in Ei. apply rebuilt_sound in Ei as (op & Hi & <-).
    apply index_get_None. split; [done|].
    rewrite index_each_fresh; [done|]. by apply removed_id_gone.
  - by rewrite removeOperation_absent_ledger.
Qed.

(** C8 (idempotent removal).  In every reachable manager and for every id
    [x] that is not the name of a member of [Object.prototype]: removing
    [x] when the room's index does not hold it changes no room's ledger; a
    second removal of [x] changes nothing after the first; and removing [x]
    held at position [index] deletes exactly the operation at that
    position, which carries the id, keeps the undo stack, and rebuilds the
    index, in which operations before [index] keep their position and
    operations after it are one position lower. *)
Theorem removeOperation_idempotent roomStates roomId x :
  reachable id roomStates →
  x ∉ prototype_names →
  let state := ledger roomId roomStates in
  let removed := removeOperation id roomId x roomStates in
  (operationIndex state !! x = None →
     ∀ r, ledger r removed = ledger r roomStates) ∧
  (∀ r, ledger r (removeOperation id roomId x removed) = ledger r removed) ∧
  (∀ index, operationIndex state !! x = Some index →
     (∃ operation, operations state !! index = Some operation ∧ id operation = x) ∧
     operations (ledger roomId removed) = delete index (operations state) ∧
     undoStack (ledger roomId removed) = undoStack state ∧
     operationIndex (ledger roomId removed)
     = operationIndex (_rebuildIndex id (ledger roomId removed)) ∧
     (∀ j op, operations state !! j = Some op → j < index → id op ≠ "__proto__" →
              operationIndex (ledger roomId removed) !! id op = Some j) ∧
     (∀ j op, operations state !! j = Some op → index < j → id op ≠ "__proto__" →
              operationIndex (ledger roomId removed) !! id op = Some (j - 1))).
Proof.
  intros Hreach Hx state removed.
  pose proof (reachable_well_formed _ roomId Hreach) as Hwf.
  pose proof Hwf as (Hix & Hheld & _). fold state in Hix, Hheld.
  assert (Hlog : NoDup (id <$> operations state)).
  { unfold held_ids in Hheld. rewrite fmap_app in Hheld.
    by apply NoDup_app in Hheld as (? & _ & _). }
  split_and!.
  - intros E r. apply removeOperation_absent_ledger.
    by apply index_get_None.
  - intros r. apply removeOperation_absent_ledger.
    by apply removeOperation_gone.
  - intros index E. subst removed.
    assert (Eget : index_get (operationIndex state) x = Some (Position index))
      by (by rewrite index_get_own, E).
    rewrite (removeOperation_present _ _ _ _ Eget), ledger_insert_eq. simpl.
    fold state.
    assert (Hnd : NoDup (id <$> delete index (operations state))).
    { rewrite list_fmap_delete.
      eapply sublist_NoDup; [done | apply sublist_delete]. }
    split_and!; [|done|done|done| |].
    + rewrite Hix in E. by apply rebuilt_sound in E.
    + intros j op Hj Hlt Hp. apply (index_each_lookup _ 0 _ j); [done| |done].
      by rewrite list_lookup_delete_lt.
    + intros j op Hj Hlt Hp. apply (index_each_lookup _ 0 _ (j - 1)); [done| |done].
      rewrite list_lookup_delete_ge by lia.
      by replace (S (j - 1)) with j by lia.
Qed.

End facts.

(** *** Instances on a ledger of named strokes *)

Lemma sample_calls_distinct : NoDup (appended (λ s : string, s) sample_calls).
Proof. apply (bool_decide_unpack _). by vm_compute. Defined.

Lemma sample_calls_plain : "__proto__" ∉ appended (λ s : string, s) sample_calls.
Proof. apply (bool_decide_unpack _). by vm_compute. Defined.

Lemma index_consistency_witness :
operationIndex (ledger "room" (calls (λ s : string, s) sample_calls ∅))
= operationIndex
    (_rebuildIndex (λ s : string, s)
       (ledger "room" (calls (λ s : string, s) sample_calls ∅))).
Proof.
apply (index_consistency (λ s : string, s) sample_calls "room").
- exact sample_calls_distinct.
- exact sample_calls_plain.
Defined.

(** The claim of C1 fails for the id ["__proto__"]: after appending three
    operations with the distinct ids [a], [__proto__] and [b], the
    operation at position 1 is in the log and the index has no entry for
    its id, so the index is not consistent. *)
Lemma index_consistency_fails_for_proto :
  let state := ledger "room" (calls (λ s : string, s) proto_calls ∅) in
  NoDup (appended (λ s : string, s) proto_calls) ∧
  operations state = ["a"; "__proto__"; "b"] ∧
  operationIndex state !! "__proto__" = None ∧
  ¬ index_consistent (λ s : string, s) state.
Proof.
  assert (Hops : operations (ledger "room" (calls (λ s : string, s) proto_calls ∅))
                 = ["a"; "__proto__"; "b"]) by (by vm_compute).
  assert (Hix : operationIndex (ledger "room" (calls (λ s : string, s) proto_calls ∅))
                !! "__proto__" = None) by (by vm_compute).
  split_and!; [|done|done|].
  - apply (bool_decide_unpack _). by vm_compute.
  - intros [_ Hcomplete]. specialize (Hcomplete 1 "__proto__").
    rewrite Hops, Hix in Hcomplete. by specialize (Hcomplete eq_refl).
Qed.

Lemma removeOperation_idempotent_witness :
ledger "room"
  (removeOperation (λ s : string, s) "room" "b"
     (removeOperation (λ s : string, s) "room" "b"
        (calls (λ s : string, s) sample_calls ∅)))
= ledger "room"
    (removeOperation (λ s : string, s) "room" "b"
       (calls (λ s : string, s) sample_calls ∅)).
Proof.
apply (removeOperation_idempotent (λ s : string, s)
         (calls (λ s : string, s) sample_calls ∅) "room" "b").
- exists sample_calls. split; [exact sample_calls_distinct | reflexivity].
- apply (bool_decide_unpack _). by vm_compute.
Defined.

(** The claim of C8 fails for the id ["constructor"]: in the manager
    holding the operations [a] and [b], whose index has no entry for
    [constructor], the first removal of that id deletes [a] and the second
    deletes [b], so the second call is not a no-op. *)
Lemma removeOperation_not_idempotent_for_constructor :
  let roomStates := calls (λ s : string, s) two_calls ∅ in
  let once := removeOperation (λ s : string, s) "room" "constructor" roomStates in
  let twice := removeOperation (λ s : string, s) "room" "constructor" once in
  operationIndex (ledger "room" roomStates) !! "constructor" = None ∧
  operations (ledger "room" roomStates) = ["a"; "b"] ∧
  operations (ledger "room" once) = ["b"] ∧
  operations (ledger "room" twice) = [] ∧
  ledger "room" twice ≠ ledger "room" once.
Proof.
  split_and!; [by vm_compute..|].
  intros Heq. apply (f_equal operations) in Heq. vm_compute in Heq. discriminate.
Qed.

End LedgerFacts.

(** * Properties of the server *)

Module ServerFacts.
Import JS Server Ledger LedgerFacts.

(** *** Boundary cases of the validator *)

Example strokeWidth_0_rejected :
  validateDrawingData (VObject (stroke [point 1 2] "brush" (Some "#112233") (of_Z 0)))
  = Normal false.
Proof. by vm_compute. Qed.

Example strokeWidth_51_rejected :
  validateDrawingData (VObject (stroke [point 1 2] "brush" (Some "#112233") (of_Z 51)))
  = Normal false.
Proof. by vm_compute. Qed.

Example strokeWidth_1_accepted :
  validateDrawingData (VObject (stroke [point 1 2] "brush" (Some "#112233") (of_Z 1)))
  = Normal true.
Proof. by vm_compute. Qed.

Example strokeWidth_50_accepted :
  validateDrawingData (VObject (stroke [point 1 2] "brush" (Some "#112233") (of_Z 50)))
  = Normal true.
Proof. by vm_compute. Qed.

Example color_ZZZZZZ_rejected :
  validateDrawingData (VObject (stroke [point 1 2] "brush" (Some "#ZZZZZZ") (of_Z 5)))
  = Normal false.
Proof. by vm_compute. Qed.

Example color_AbC123_accepted :
  validateDrawingData (VObject (stroke [point 1 2] "brush" (Some "#AbC123") (of_Z 5)))
  = Normal true.
Proof. by vm_compute. Qed.

Example eraser_without_color_accepted :
  validateDrawingData (VObject (stroke [point 1 2] "eraser" None (of_Z 5)))
  = Normal true.
Proof. by vm_compute. Qed.

Example forged_payload_accepted : validateDrawingData forged_payload = Normal true.
Proof. by vm_compute. Qed.

(** *** The validator against the acceptance condition *)

Lemma typeof_number v :
  bool_decide (typeof v = "number")
  = match v with VNumber _ => true | _ => false end.
Proof. by destruct v. Qed.

Lemma validatePoints_cons point points :
  point ≠ VNull → point ≠ VUndefined →
  validatePoints (point :: points)
  = if spec_point point then validatePoints points else Normal false.
Proof.
  intros Hnull Hundef. unfold spec_point.
  destruct point as [| |b|n|s|elements|properties]; try done.
  cbn [validatePoints get field mbind completion_bind].
  rewrite !typeof_number.
  destruct (default VUndefined (properties !! "x")) as [| | |[]| | |];
    destruct (default VUndefined (properties !! "y")) as [| | |[]| | |];
    try done.
Qed.
Lemma validatePoints_spec points :
  Forall (λ point, point ≠ VNull ∧ point ≠ VUndefined) points →
  validatePoints points = Normal (forallb spec_point points).
Proof.
  induction 1 as [|point points [Hnull Hundef] _ IH]; [done|].
  rewrite validatePoints_cons by done. simpl.
  by destruct (spec_point point).
Qed.

Lemma validateDrawingData_not_object data :
  typeof data ≠ "object" → validateDrawingData data = Normal false.
Proof.
  intros H. unfold validateDrawingData.
  by rewrite (bool_decide_eq_false_2 _ H), orb_true_r.
Qed.

Lemma number_in_range w :
  negb (number_lt w (of_Z 1) || number_lt (of_Z 50) w)
  = match w with
    | NaN => true
    | Finite q => bool_decide (Qc_of_Z 1 ≤ q ∧ q ≤ Qc_of_Z 50)%Qc
    | _ => false
    end.
Proof.
  destruct w as [| | |q]; try done. unfold number_lt, of_Z.
  rewrite negb_orb, <-!bool_decide_not, <-bool_decide_and.
  apply bool_decide_ext. split; intros [H1 H2].
  - split; by apply Qcnot_lt_le.
  - split; by apply Qcle_not_lt.
Qed.

Lemma tool_is_valid tool :
  bool_decide (tool ∈ validTools) = bool_decide (tool = "brush" ∨ tool = "eraser").
Proof.
  apply bool_decide_ext. unfold validTools.
  rewrite !elem_of_cons, elem_of_nil. tauto.
Qed.

(** Apart from a [NaN] stroke width and a [null] or [undefined] point, the
    validator decides exactly the acceptance condition of the design
    document. *)
Lemma validateDrawingData_spec data :
  field data "strokeWidth" ≠ VNumber NaN →
  (∀ points, field data "points" = VArray points →
             Forall (λ point, point ≠ VNull ∧ point ≠ VUndefined) points) →
  validateDrawingData data = Normal (spec_accepts data).
Proof.
  intros Hnan Hpoints.
  destruct data as [| |b|n|s|elements|properties];
    try (by rewrite validateDrawingData_not_object); [done..|].
  unfold validateDrawingData, spec_accepts, spec_color in *.
  cbn [truthy typeof get field mbind completion_bind negb orb] in *.
  replace (bool_decide ("object" = "object")) with true by done.
  cbn [negb].
  destruct (default VUndefined (properties !! "points"))
    as [| | | | |points|]; try done.
  specialize (Hpoints points eq_refl).
  destruct points as [|point points]; [done|].
  replace (bool_decide (length (point :: points) = 0)) with false by done.
  rewrite (validatePoints_spec _ Hpoints).
  cbn [spec_points].
  destruct (forallb spec_point (point :: points));
    [|by repeat case_match].
  destruct (default VUndefined (properties !! "tool"))
    as [| | | |tool| |]; try (by rewrite ?andb_false_r).
  destruct (default VUndefined (properties !! "strokeWidth"))
    as [| | |w| | |]; try (by rewrite ?andb_false_r).
  cbn [spec_tool spec_strokeWidth andb].
  rewrite tool_is_valid.
  destruct (bool_decide (tool = "brush" ∨ tool = "eraser")); [|done].
  pose proof (number_in_range w) as Hrange.
  destruct (number_lt w (of_Z 1) || number_lt (of_Z 50) w);
    destruct w as [| | |q]; try done; cbn [negb andb] in *;
    rewrite <-Hrange; [done|].
  cbn [andb]. rewrite bool_decide_not.
  destruct (bool_decide (tool = "eraser"));
    destruct (default VUndefined (properties !! "color"));
    cbn [negb andb orb]; try done.
  by destruct (test_hex_color _).
Qed.


(** C4 (validation predicate).  The design document describes
    [validateDrawingData] as a pure accept/reject predicate that rejects
    every candidate with a point whose coordinates are not finite numbers
    and every stroke width outside [1, 50].  On
    [{points: [null], tool: 'brush', color: '#112233', strokeWidth: 5}] the
    function neither accepts nor rejects: reading [point.x] throws a
    TypeError.  On a stroke width of [NaN] it accepts, since both
    comparisons with [NaN] are false.  The acceptance condition rejects
    both. *)
Theorem validateDrawingData_null_point_throws :
  validateDrawingData null_point_payload = Throw "TypeError" ∧
  spec_accepts null_point_payload = false ∧
  validateDrawingData nan_width_payload = Normal true ∧
  spec_accepts nan_width_payload = false.
Proof. by vm_compute. Qed.

(** *** What the validator reads *)

Lemma validateDrawingData_accepts_object data :
  validateDrawingData data = Normal true → ∃ properties, data = VObject properties.
Proof.
  destruct data as [| |b|n|s|elements|properties];
    try (by rewrite validateDrawingData_not_object); [done..|].
  by exists properties.
Qed.

Lemma validateDrawingData_reads (properties properties' : gmap string value) :
  (∀ k, k ∈ read_by_validator → properties' !! k = properties !! k) →
  validateDrawingData (VObject properties') = validateDrawingData (VObject properties).
Proof.
  intros Hsame. unfold validateDrawingData.
  cbn [truthy typeof get mbind completion_bind].
  rewrite !Hsame; [done|unfold read_by_validator; set_solver..].
Qed.

(** *** The stamped operation *)

Lemma stamp_id socket_id now1 now2 random data :
  stamp socket_id now1 now2 random data !! "id"
  = Some (VString (socket_id +:+ "-" +:+ pretty now2 +:+ "-" +:+ random)).
Proof. unfold stamp. by rewrite lookup_insert_eq. Qed.

Lemma dash_in_append (s t : string) :
  "-"%char ∈ String.list_ascii_of_string (s +:+ "-" +:+ t).
Proof. induction s as [|c s IH]; simpl; [by left | by right]. Qed.

(** The ids the draw handler assigns contain a hyphen, so none of them is
    the name of a member of [Object.prototype]: on the server the index is
    only ever keyed by names it does not inherit. *)
Lemma stamped_id_not_inherited socket_id now1 now2 random data :
  operation_id (stamp socket_id now1 now2 random data) ∉ Ledger.prototype_names.
Proof.
  unfold operation_id. rewrite stamp_id. intros Hin.
  assert (Hnames : Forall (λ name, "-"%char ∉ String.list_ascii_of_string name)
                     Ledger.prototype_names)
    by (apply (bool_decide_unpack _); by vm_compute).
  rewrite Forall_forall in Hnames. apply (Hnames _ Hin), dash_in_append.
Qed.

Lemma stamp_timestamp socket_id now1 now2 random data :
  stamp socket_id now1 now2 random data !! "timestamp" = Some (VNumber (of_Z now1)).
Proof. unfold stamp. rewrite lookup_insert_ne by done. by rewrite lookup_insert_eq. Qed.

Lemma stamp_userId socket_id now1 now2 random data :
  stamp socket_id now1 now2 random data !! "userId" = Some (VString socket_id).
Proof. unfold stamp. rewrite !lookup_insert_ne by done. by rewrite lookup_insert_eq. Qed.

Lemma stamp_other socket_id now1 now2 random data k :
  k ∉ stamped_by_authority →
  stamp socket_id now1 now2 random data !! k = spread data !! k.
Proof.
  unfold stamped_by_authority, stamp. intros Hk.
  rewrite !lookup_insert_ne; [done|set_solver..].
Qed.

Lemma stamp_agree socket_id now1 now2 random data data' :
  (∀ k, k ∉ stamped_by_authority → spread data' !! k = spread data !! k) →
  stamp socket_id now1 now2 random data' = stamp socket_id now1 now2 random data.
Proof.
  intros Hsame. apply map_eq. intros k.
  destruct (decide (k ∈ stamped_by_authority)) as [Hk|Hk].
  - unfold stamped_by_authority in Hk.
    rewrite !elem_of_cons, elem_of_nil in Hk.
    destruct Hk as [->|[->|[->|[]]]];
      by rewrite ?stamp_id, ?stamp_userId, ?stamp_timestamp.
  - rewrite !stamp_other by done. by apply Hsame.
Qed.

(** *** The handlers *)

Lemma on_draw_accepted sids socket_id now1 now2 random data stateManager :
  validateDrawingData data = Normal true →
  on_draw sids socket_id now1 now2 random data stateManager
  = mkOutcome
      (addOperation operation_id (roomIdOf sids socket_id)
         (stamp socket_id now1 now2 random data) stateManager).2
      [socket_to_emit sids socket_id (roomIdOf sids socket_id) "draw"
         [VObject (stamp socket_id now1 now2 random data)]]
      [] None.
Proof.
  intros Hvalid. unfold on_draw. rewrite Hvalid.
  by destruct (addOperation _ _ _ _).
Qed.

Lemma on_draw_stored sids socket_id now1 now2 random data stateManager :
  validateDrawingData data = Normal true →
  operations
    (ledger (roomIdOf sids socket_id)
       (Server.stateManager
          (on_draw sids socket_id now1 now2 random data stateManager)))
  = operations (ledger (roomIdOf sids socket_id) stateManager)
    ++ [stamp socket_id now1 now2 random data].
Proof.
  intros Hvalid. rewrite on_draw_accepted by done. simpl.
  rewrite addOperation_eq. simpl. by rewrite ledger_insert_eq.
Qed.

Lemma elem_of_members sids room s :
  s ∈ members sids room ↔ room ∈ socket_rooms sids s.
Proof.
  unfold members, socket_rooms. rewrite elem_of_dom. split.
  - intros [rooms Hs]. apply map_lookup_filter_Some in Hs as [-> Hin]. done.
  - destruct (sids !! s) as [rooms|] eqn:E; simpl; [|by intros ?%elem_of_nil].
    intros Hin. exists rooms. by apply map_lookup_filter_Some.
Qed.


Lemma on_undo_effective sids socket_id stateManager ops operation :
  operations (ledger (roomIdOf sids socket_id) stateManager) = ops ++ [operation] →
  on_undo sids socket_id stateManager
  = mkOutcome (undo operation_id (roomIdOf sids socket_id) stateManager).2
      [io_to_emit sids (roomIdOf sids socket_id) "undo"
         [VObject {["operationId" := default VUndefined (operation !! "id")]}]]
      [] None.
Proof. intros E. unfold on_undo. by rewrite (undo_snoc _ _ _ _ _ E). Qed.

Lemma on_redo_effective sids socket_id stateManager undone operation :
  undoStack (ledger (roomIdOf sids socket_id) stateManager) = undone ++ [operation] →
  on_redo sids socket_id stateManager
  = mkOutcome (redo operation_id (roomIdOf sids socket_id) stateManager).2
      [io_to_emit sids (roomIdOf sids socket_id) "redo"
         [VObject {["operation" := VObject operation]}]]
      [] None.
Proof. intros E. unfold on_redo. by rewrite (redo_snoc _ _ _ _ _ E). Qed.

(** A socket that has joined a room acts on a room it is in. *)
Lemma roomIdOf_joined sids socket_id room :
  room ∈ socket_rooms sids socket_id → room ≠ socket_id →
  "" ∉ socket_rooms sids socket_id →
  roomIdOf sids socket_id ∈ socket_rooms sids socket_id.
Proof.
  intros Hin Hne Hnamed. unfold roomIdOf.
  destruct (find _ _) as [found|] eqn:E.
  - apply find_some in E as [Hfound _]. apply list_elem_of_In in Hfound.
    rewrite bool_decide_eq_false_2; [done|]. by intros ->.
  - apply list_elem_of_In in Hin. apply (find_none _ _ E) in Hin.
    by rewrite bool_decide_eq_false_2 in Hin.
Qed.

(** C5 (broadcast targeting).  Let [everyone] be the members of the
    sender's room.  An accepted draw appends the stamped operation and emits
    it once, to [everyone] but the sender.  An undo that finds an operation
    removes the last one and emits its [{operationId}] once to [everyone];
    a redo that finds an undone operation reinstates it and emits the whole
    operation once to [everyone]; a clear-canvas emits the signal without
    arguments once to [everyone].  [everyone] is exactly the set of sockets
    that are in the room, the sender among them whenever it has joined a
    room. *)
Theorem broadcast_targets sids socket_id now1 now2 random data stateManager :
  let roomId := roomIdOf sids socket_id in
  let everyone := members sids roomId in
  let state := ledger roomId stateManager in
  (validateDrawingData data = Normal true →
     let out := on_draw sids socket_id now1 now2 random data stateManager in
     let operation := stamp socket_id now1 now2 random data in
     operations (ledger roomId (Server.stateManager out))
     = operations state ++ [operation] ∧
     emitted out
     = [mkEmit (everyone ∖ {[socket_id]}) "draw" [VObject operation]]) ∧
  (∀ ops operation, operations state = ops ++ [operation] →
     let out := on_undo sids socket_id stateManager in
     operations (ledger roomId (Server.stateManager out)) = ops ∧
     emitted out
     = [mkEmit everyone "undo"
          [VObject {["operationId" := default VUndefined (operation !! "id")]}]]) ∧
  (∀ undone operation, undoStack state = undone ++ [operation] →
     let out := on_redo sids socket_id stateManager in
     operations (ledger roomId (Server.stateManager out))
     = operations state ++ [operation] ∧
     emitted out
     = [mkEmit everyone "redo" [VObject {["operation" := VObject operation]}]]) ∧
  (let out := on_clear_canvas sids socket_id stateManager in
   ledger roomId (Server.stateManager out) = emptyRoomState ∧
   emitted out = [mkEmit everyone "clear-canvas" []]) ∧
  (∀ s, s ∈ everyone ↔ roomId ∈ socket_rooms sids s) ∧
  (∀ s, s ∈ everyone ∖ {[socket_id]} ↔ roomId ∈ socket_rooms sids s ∧ s ≠ socket_id) ∧
  (∀ room, room ∈ socket_rooms sids socket_id → room ≠ socket_id →
     "" ∉ socket_rooms sids socket_id → socket_id ∈ everyone).
Proof.
  intros roomId everyone state. split_and!.
  - intros Hvalid out operation. split.
    + by apply on_draw_stored.
    + subst out. by rewrite on_draw_accepted.
  - intros ops operation E out. subst out.
    rewrite (on_undo_effective _ _ _ _ _ E). simpl.
    rewrite (undo_snoc _ _ _ _ _ E). simpl. by rewrite ledger_insert_eq.
  - intros undone operation E out. subst out.
    rewrite (on_redo_effective _ _ _ _ _ E). simpl.
    rewrite (redo_snoc _ _ _ _ _ E). simpl. by rewrite ledger_insert_eq.
  - simpl. by rewrite clearState_eq, ledger_insert_eq.
  - intros s. apply elem_of_members.
  - intros s. subst everyone.
    by rewrite elem_of_difference, elem_of_singleton, elem_of_members.
  - intros room Hin Hne Hnamed. apply elem_of_members.
    by eapply roomIdOf_joined.
Qed.

(** A rejected draw is dropped.  When [validateDrawingData] returns
    [false] for the payload of a draw, the handler returns with the state
    manager exactly as it was, with nothing emitted to any socket, the
    sender included, and without throwing. *)
Lemma invalid_draw_dropped sids socket_id now1 now2 random data stateManager :
  validateDrawingData data = Normal false →
  let out := on_draw sids socket_id now1 now2 random data stateManager in
  Server.stateManager out = stateManager ∧
  emitted out = [] ∧
  thrown out = None.
Proof. intros Hvalid. unfold on_draw. by rewrite Hvalid. Qed.

Lemma zero_width_draw_dropped :
  emitted (on_draw sample_sids "s1" 1000 1001 "0.5" zero_width_payload ∅) = [].
Proof.
  apply (invalid_draw_dropped sample_sids "s1" 1000 1001 "0.5" zero_width_payload ∅).
  by vm_compute.
Qed.

(** C6 (malformed draw).  The design document has a draw whose payload
    fails validation dropped silently: no broadcast, no mutation, no error.
    The payload
    [{points: [null], tool: 'brush', color: '#112233', strokeWidth: 5}]
    fails the acceptance condition, and the draw handler does not drop it
    silently: for every sender, in every state, the TypeError thrown by
    [validateDrawingData] leaves the handler, which has warned of nothing.
    Nothing is emitted and the state manager is as it was. *)
Theorem malformed_draw_throws sids socket_id now1 now2 random stateManager :
  let out :=
    on_draw sids socket_id now1 now2 random null_point_payload stateManager in
  spec_accepts null_point_payload = false ∧
  thrown out = Some "TypeError" ∧
  warned out = [] ∧
  emitted out = [] ∧
  Server.stateManager out = stateManager.
Proof.
  intros out. subst out. unfold on_draw.
  assert (validateDrawingData null_point_payload = Throw "TypeError") as ->
    by (by vm_compute).
  split_and!; [by vm_compute|done..].
Qed.

(** C7 (undo and redo on empty stacks).  [undo] on a room whose operations
    list is empty returns [null] and leaves the ledger of every room as it
    was, and the undo handler then emits nothing; likewise [redo] on a room
    whose undo stack is empty, and the redo handler. *)
Theorem empty_undo_redo_silent sids socket_id roomId stateManager :
  (operations (ledger roomId stateManager) = [] →
     (undo operation_id roomId stateManager).1 = None ∧
     (∀ r, ledger r (undo operation_id roomId stateManager).2
           = ledger r stateManager)) ∧
  (operations (ledger (roomIdOf sids socket_id) stateManager) = [] →
     let out := on_undo sids socket_id stateManager in
     emitted out = [] ∧ thrown out = None ∧
     (∀ r, ledger r (Server.stateManager out) = ledger r stateManager)) ∧
  (undoStack (ledger roomId stateManager) = [] →
     (redo operation_id roomId stateManager).1 = None ∧
     (∀ r, ledger r (redo operation_id roomId stateManager).2
           = ledger r stateManager)) ∧
  (undoStack (ledger (roomIdOf sids socket_id) stateManager) = [] →
     let out := on_redo sids socket_id stateManager in
     emitted out = [] ∧ thrown out = None ∧
     (∀ r, ledger r (Server.stateManager out) = ledger r stateManager)).
Proof.
  assert (Hsame : ∀ room r,
    ledger r (<[room := ledger room stateManager]> stateManager)
    = ledger r stateManager).
  { intros room r. rewrite ledger_insert. case_decide; by subst. }
  split_and!; intros E.
  - rewrite (undo_nothing _ _ _ E). simpl. split; [done | apply Hsame].
  - unfold on_undo. rewrite (undo_nothing _ _ _ E). simpl.
    split_and!; [done | done | apply Hsame].
  - rewrite (redo_nothing _ _ _ E). simpl. split; [done | apply Hsame].
  - unfold on_redo. rewrite (redo_nothing _ _ _ E). simpl.
    split_and!; [done | done | apply Hsame].
Qed.

Lemma empty_undo_redo_silent_witness :
  emitted (on_undo sample_sids "s1" ∅) = [].
Proof.
  apply (empty_undo_redo_silent sample_sids "s1" "studio" ∅).
  reflexivity.
Defined.


Lemma broadcast_targets_witness :
  emitted (on_draw sample_sids "s1" 1000 1001 "0.5" forged_payload ∅)
  = [mkEmit (members sample_sids (roomIdOf sample_sids "s1") ∖ {["s1"]}) "draw"
       [VObject (stamp "s1" 1000 1001 "0.5" forged_payload)]].
Proof.
  apply (broadcast_targets sample_sids "s1" 1000 1001 "0.5" forged_payload ∅).
  by vm_compute.
Defined.

(** The scenario of the design document: S draws, T undoes. *)
Example draw_reaches_the_others :
  recipients <$> emitted (on_draw sample_sids "s1" 1000 1001 "0.5" forged_payload ∅)
  = [{["s2"]}].
Proof. by vm_compute. Qed.

Example undo_reaches_everyone :
  recipients <$>
    emitted (on_undo sample_sids "s2"
               (stateManager (on_draw sample_sids "s1" 1000 1001 "0.5" forged_payload ∅)))
  = [{["s1"; "s2"]}].
Proof. by vm_compute. Qed.

(** A socket that joined no room acts on "default-room", of which it is
    not a member. *)
Example roomless_sender_room : roomIdOf sample_sids "s3" = "default-room".
Proof. by vm_compute. Qed.


(** C9 (authority stamping).  For every accepted draw payload the stored
    and broadcast operation has [userId] equal to the sender's socket id,
    [timestamp] equal to the clock reading taken by the handler, and [id]
    built from the socket id, a second clock reading and a random number,
    whatever [id], [userId] or [timestamp] the payload carried; and a
    payload that differs from it in those three properties only makes the
    handler store and broadcast the very same operation. *)
Theorem stamping_overrides_client_identity
    sids socket_id now1 now2 random data data' stateManager :
  validateDrawingData data = Normal true →
  (∀ k, k ∉ stamped_by_authority → spread data' !! k = spread data !! k) →
  let roomId := roomIdOf sids socket_id in
  let out := on_draw sids socket_id now1 now2 random data stateManager in
  let operation := stamp socket_id now1 now2 random data in
  operation !! "userId" = Some (VString socket_id) ∧
  operation !! "timestamp" = Some (VNumber (of_Z now1)) ∧
  operation !! "id"
  = Some (VString (socket_id +:+ "-" +:+ pretty now2 +:+ "-" +:+ random)) ∧
  operations (ledger roomId (Server.stateManager out))
  = operations (ledger roomId stateManager) ++ [operation] ∧
  emitted out = [socket_to_emit sids socket_id roomId "draw" [VObject operation]] ∧
  validateDrawingData data' = Normal true ∧
  on_draw sids socket_id now1 now2 random data' stateManager = out.
Proof.
  intros Hvalid Hsame roomId out operation.
  assert (Hvalid' : validateDrawingData data' = Normal true).
  { destruct (validateDrawingData_accepts_object _ Hvalid) as [properties ->].
    assert (Hpoints : is_Some (properties !! "points")).
    { unfold validateDrawingData in Hvalid.
      cbn [truthy typeof get mbind completion_bind] in Hvalid.
      by destruct (properties !! "points"). }
    assert (∃ properties', data' = VObject properties') as [properties' ->].
    { destruct data' as [| | | | | |properties']; [..|by eexists];
        specialize (Hsame "points"); simpl in Hsame;
        rewrite lookup_empty in Hsame; destruct Hpoints as [? Hpoints];
        rewrite Hpoints in Hsame;
        by discriminate Hsame; unfold stamped_by_authority; set_solver. }
    rewrite <-Hvalid. apply validateDrawingData_reads.
    intros k Hk. apply Hsame.
    unfold read_by_validator, stamped_by_authority in *. set_solver. }
  split_and!.
  - apply stamp_userId.
  - apply stamp_timestamp.
  - apply stamp_id.
  - by apply on_draw_stored.
  - subst out. by rewrite on_draw_accepted.
  - done.
  - subst out. rewrite !on_draw_accepted by done.
    by rewrite (stamp_agree _ _ _ _ data data').
Qed.

Lemma stamping_overrides_client_identity_witness :
  on_draw sample_sids "s1" 1000 1001 "0.5" (forged "yours" "s2" 99) ∅
  = on_draw sample_sids "s1" 1000 1001 "0.5" forged_payload ∅.
Proof.
  apply (stamping_overrides_client_identity sample_sids "s1" 1000 1001 "0.5"
           forged_payload (forged "yours" "s2" 99) ∅).
  - by vm_compute.
  - intros k Hk.
    assert (k ≠ "id" ∧ k ≠ "userId" ∧ k ≠ "timestamp") as (Hid & Huser & Htime).
    { unfold stamped_by_authority in Hk. rewrite !not_elem_of_cons in Hk. tauto. }
    simpl.
    rewrite !(lookup_insert_ne _ "id") by done.
    rewrite !(lookup_insert_ne _ "userId") by done.
    by rewrite !(lookup_insert_ne _ "timestamp") by done.
Defined.

(** C10 (extra fields pass through).  A property that the validator does
    not read never changes its verdict, so no payload is rejected for
    carrying one; and for every accepted payload, every property other than
    [id], [userId] and [timestamp] is copied unchanged into the operation
    that is appended to the ledger and emitted to the other members of the
    room. *)
Theorem extra_fields_pass_through
    sids socket_id now1 now2 random properties k v stateManager :
  k ∉ read_by_validator →
  validateDrawingData (VObject (<[k := v]> properties))
  = validateDrawingData (VObject properties) ∧
  (∀ data, validateDrawingData data = Normal true →
     let roomId := roomIdOf sids socket_id in
     let out := on_draw sids socket_id now1 now2 random data stateManager in
     ∃ operation,
       last (operations (ledger roomId (Server.stateManager out))) = Some operation ∧
       emitted out
       = [mkEmit (members sids roomId ∖ {[socket_id]}) "draw" [VObject operation]] ∧
       ∃ sent, data = VObject sent ∧
         ∀ k', k' ∉ stamped_by_authority → operation !! k' = sent !! k').
Proof.
  intros Hk. split.
  - apply validateDrawingData_reads. intros k' Hk'.
    apply lookup_insert_ne. by intros ->.
  - intros data Hvalid roomId out.
    exists (stamp socket_id now1 now2 random data). split_and!.
    + subst out roomId. by rewrite on_draw_stored, last_snoc.
    + subst out. by rewrite on_draw_accepted.
    + destruct (validateDrawingData_accepts_object _ Hvalid) as [sent ->].
      exists sent. split; [done|]. intros k' Hk'. by rewrite stamp_other.
Qed.

Lemma extra_fields_pass_through_witness :
  validateDrawingData
    (VObject (<["pressure" := VNumber (of_Z 7)]>
                (stroke [point 0 0] "eraser" None (of_Z 5))))
  = validateDrawingData (VObject (stroke [point 0 0] "eraser" None (of_Z 5))).
Proof.
  apply (extra_fields_pass_through sample_sids "s1" 1000 1001 "0.5"
           (stroke [point 0 0] "eraser" None (of_Z 5)) "pressure"
           (VNumber (of_Z 7)) ∅).
  unfold read_by_validator. set_solver.
Defined.

Example forged_pressure_is_stored :
  (λ operation : gmap string value, operation !! "pressure") <$>
    operations
      (ledger "studio"
         (stateManager (on_draw sample_sids "s1" 1000 1001 "0.5" forged_payload ∅)))
  = [Some (VNumber (of_Z 7))].
Proof. by vm_compute. Qed.

Example forged_identity_is_replaced :
  (λ operation : gmap string value,
     (operation !! "id", operation !! "userId", operation !! "timestamp")) <$>
    operations
      (ledger "studio"
         (stateManager (on_draw sample_sids "s1" 1000 1001 "0.5" forged_payload ∅)))
  = [(Some (VString "s1-1001-0.5"), Some (VString "s1"), Some (VNumber (of_Z 1000)))].
Proof. by vm_compute. Qed.

End ServerFacts.

(** * Further properties of the drawing state manager *)

Module LedgerMore.
Import Ledger LedgerCalls LedgerFacts.
Section more.
Context {Operation : Type} (id : Operation → string).
Implicit Types (roomStates : gmap string (@RoomState Operation)).
Implicit Types (state : @RoomState Operation) (ops : list Operation).
Implicit Types (roomId : string) (operation : Operation).

Lemma rebuilt_lookup ops k i operation :
  NoDup (id <$> ops) → ops !! i = Some operation → id operation = k →
  k ≠ "__proto__" → index_each id 0 ops ∅ !! k = Some i.
Proof.
  intros Hnd Hi <- Hp. by rewrite (index_each_lookup id _ _ _ i operation).
Qed.

Lemma rebuilt_listed ops k operation :
  NoDup (id <$> ops) → operation ∈ ops → id operation = k → k ≠ "__proto__" →
  ∃ i, index_each id 0 ops ∅ !! k = Some i ∧ ops !! i = Some operation.
Proof.
  intros Hnd [i Hi]%list_elem_of_lookup_1 Hid Hp. exists i.
  split; [by eapply rebuilt_lookup | done].
Qed.

(** Lookup by id.  In a reachable manager [getOperation(roomId, k)] returns
    an operation exactly when that operation is in the room's log and
    carries the id [k], and [k] is not ["__proto__"]; it returns [undefined]
    exactly when [k] names a member of [Object.prototype] and is
    ["__proto__"] or the id of no operation in the log; and it returns
    [null] exactly when [k] names no such member and is the id of no
    operation in the log, as an undone or removed operation's id is. *)
Theorem getOperation_finds roomStates roomId k :
  reachable id roomStates →
  let log := operations (ledger roomId roomStates) in
  let result := (getOperation roomId k roomStates).1 in
  (∀ operation,
     result = Found operation
     ↔ (operation ∈ log ∧ id operation = k) ∧ k ≠ "__proto__") ∧
  (result = Undefined
   ↔ k ∈ prototype_names ∧ (k = "__proto__" ∨ k ∉ id <$> log)) ∧
  (result = Null ↔ (k ∉ prototype_names) ∧ (k ∉ id <$> log)).
Proof.
  intros Hreach log result.
  pose proof (reachable_well_formed id _ roomId Hreach) as (Hix & Hheld & _).
  assert (Hlog : NoDup (id <$> log)).
  { unfold held_ids in Hheld. rewrite fmap_app in Hheld.
    by apply NoDup_app in Hheld as (? & _ & _). }
  fold log in Hix.
  assert (Hlisted : ∀ operation, operation ∈ log → id operation = k →
            k ≠ "__proto__" →
            ∃ i, operationIndex (ledger roomId roomStates) !! k = Some i
                 ∧ log !! i = Some operation).
  { intros operation Hin Hid Hp. rewrite Hix. by apply rebuilt_listed. }
  assert (Hin_log : k ∈ id <$> log → ∃ operation, operation ∈ log ∧ id operation = k).
  { intros (operation & -> & Hin)%list_elem_of_fmap. by exists operation. }
  subst result. unfold getOperation. rewrite _getRoomState_ledger.
  cbv beta iota zeta.
  destruct (index_get (operationIndex (ledger roomId roomStates)) k)
    as [[i|]|] eqn:E; cbn [fst].
  - apply index_get_position in E as [E Hp].
    pose proof E as Hi. rewrite Hix in Hi.
    apply rebuilt_sound in Hi as (op & Hi & Hid). fold log. rewrite Hi.
    split_and!.
    + intros operation. split.
      * intros [= <-]. split; [|done]. split; [by eapply list_elem_of_lookup_2|done].
      * intros [[Hin Hk] _]. destruct (Hlisted _ Hin Hk Hp) as (j & Hj & Hop).
        congruence.
    + split; [done|]. intros [_ [?|Hout]]; [done|]. destruct Hout.
      rewrite <-Hid. apply list_elem_of_fmap_2. by eapply list_elem_of_lookup_2.
    + split; [done|]. intros [_ Hout]. destruct Hout.
      rewrite <-Hid. apply list_elem_of_fmap_2. by eapply list_elem_of_lookup_2.
  - apply index_get_inherited in E as [Hname Hnone].
    split_and!.
    + intros operation. split; [done|]. intros [[Hin Hk] Hp].
      destruct (Hlisted _ Hin Hk Hp) as (j & Hj & _).
      destruct Hnone as [?|Hnone]; [done|]. congruence.
    + split; [|done]. intros _. split; [done|].
      destruct (decide (k = "__proto__")) as [|Hp]; [by left|]. right.
      intros (operation & Hin & Hk)%Hin_log.
      destruct (Hlisted _ Hin Hk Hp) as (j & Hj & _).
      destruct Hnone as [?|Hnone]; [done|]. congruence.
    + split; [done|]. by intros [? _].
  - apply index_get_None in E as [Hname Hnone].
    assert (Hp : k ≠ "__proto__") by (intros ->; apply Hname, proto_inherited).
    split_and!.
    + intros operation. split; [done|]. intros [[Hin Hk] _].
      destruct (Hlisted _ Hin Hk Hp) as (j & Hj & _). congruence.
    + split; [done|]. by intros [? _].
    + split; [|done]. intros _. split; [done|].
      intros (operation & Hin & Hk)%Hin_log.
      destruct (Hlisted _ Hin Hk Hp) as (j & Hj & _). congruence.
Qed.

Lemma call_ledger_other (c : @Call Operation) roomId roomStates :
  roomOfCall c ≠ roomId →
  ledger roomId (call id c roomStates) = ledger roomId roomStates.
Proof.
  intros Hne. destruct c as [r operation|r|r|r x|r]; simpl in *.
  - rewrite addOperation_eq. simpl. by apply ledger_insert_ne.
  - destruct (last (operations (ledger r roomStates))) as [operation|] eqn:E.
    + apply last_Some in E as [ops E]. rewrite (undo_snoc _ _ _ _ _ E). simpl.
      by apply ledger_insert_ne.
    + apply last_None in E. rewrite (undo_nothing _ _ _ E). simpl.
      by apply ledger_insert_ne.
  - destruct (last (undoStack (ledger r roomStates))) as [operation|] eqn:E.
    + apply last_Some in E as [undone E]. rewrite (redo_snoc _ _ _ _ _ E). simpl.
      by apply ledger_insert_ne.
    + apply last_None in E. rewrite (redo_nothing _ _ _ E). simpl.
      by apply ledger_insert_ne.
  - by apply removeOperation_other.
  - rewrite clearState_eq. by apply ledger_insert_ne.
Qed.


Lemma calls_app (cs1 cs2 : list (@Call Operation)) roomStates :
  calls id (cs1 ++ cs2) roomStates = calls id cs2 (calls id cs1 roomStates).
Proof. revert roomStates. induction cs1 as [|c cs1 IH]; intros; [done|]. apply IH. Qed.

Lemma appended_app (cs1 cs2 : list (@Call Operation)) :
  appended id (cs1 ++ cs2) = appended id cs1 ++ appended id cs2.
Proof.
  induction cs1 as [|c cs1 IH]; [done|]. destruct c; simpl; by rewrite ?IH.
Qed.

Lemma reachable_calls (cs : list (@Call Operation)) roomStates :
  reachable id roomStates → appended id cs = [] →
  reachable id (calls id cs roomStates).
Proof.
  intros (cs0 & Hnd & ->) Hnone. exists (cs0 ++ cs). split.
  - by rewrite appended_app, Hnone, app_nil_r.
  - by rewrite calls_app.
Qed.

Lemma calls_ledger_other (cs : list (@Call Operation)) roomId roomStates :
  Forall (λ c, roomOfCall c ≠ roomId) cs →
  ledger roomId (calls id cs roomStates) = ledger roomId roomStates.
Proof.
  intros Hcs. revert roomStates.
  induction Hcs as [|c cs Hc _ IH]; intros roomStates; [done|].
  simpl. rewrite IH. by apply call_ledger_other.
Qed.

(** Room isolation.  A sequence of calls none of which is made on a room
    leaves the ledger of that room as it was. *)
Theorem calls_other_room (cs : list (@Call Operation)) roomId roomStates :
  Forall (λ c, roomOfCall c ≠ roomId) cs →
  ledger roomId (calls id cs roomStates) = ledger roomId roomStates.
Proof. intros Hcs. by apply calls_ledger_other. Qed.

(** *** What undo and redo leave in their room *)

Lemma undo_ledger roomId roomStates :
  ledger roomId (undo id roomId roomStates).2
  = match last (operations (ledger roomId roomStates)) with
    | Some operation =>
        mkRoomState (removelast (operations (ledger roomId roomStates)))
          (undoStack (ledger roomId roomStates) ++ [operation])
          (index_delete (operationIndex (ledger roomId roomStates)) (id operation))
    | None => ledger roomId roomStates
    end.
Proof.
  destruct (last (operations (ledger roomId roomStates))) as [operation|] eqn:E.
  - apply last_Some in E as [ops E]. rewrite (undo_snoc _ _ _ _ _ E). simpl.
    by rewrite ledger_insert_eq, E, removelast_last.
  - apply last_None in E. rewrite (undo_nothing _ _ _ E). simpl.
    by rewrite ledger_insert_eq.
Qed.

Lemma redo_ledger roomId roomStates :
  ledger roomId (redo id roomId roomStates).2
  = match last (undoStack (ledger roomId roomStates)) with
    | Some operation =>
        mkRoomState (operations (ledger roomId roomStates) ++ [operation])
          (removelast (undoStack (ledger roomId roomStates)))
          (index_set (operationIndex (ledger roomId roomStates)) (id operation)
             (length (operations (ledger roomId roomStates))))
    | None => ledger roomId roomStates
    end.
Proof.
  destruct (last (undoStack (ledger roomId roomStates))) as [operation|] eqn:E.
  - apply last_Some in E as [undone E]. rewrite (redo_snoc _ _ _ _ _ E). simpl.
    by rewrite ledger_insert_eq, E, removelast_last.
  - apply last_None in E. rewrite (redo_nothing _ _ _ E). simpl.
    by rewrite ledger_insert_eq.
Qed.

Lemma undos_ledger n roomId roomStates :
  let state := ledger roomId roomStates in
  let after := ledger roomId (calls id (replicate n (Undo roomId)) roomStates) in
  operations after = take (length (operations state) - n) (operations state) ∧
  undoStack after
  = undoStack state ++ reverse (drop (length (operations state) - n) (operations state)).
Proof.
  revert roomStates. induction n as [|n IH]; intros roomStates; simpl.
  - rewrite Nat.sub_0_r, firstn_all, drop_all. by rewrite app_nil_r.
  - destruct (IH (undo id roomId roomStates).2) as [Hops Hundo].
    rewrite Hops, Hundo, undo_ledger. clear IH Hops Hundo.
    destruct (last (operations (ledger roomId roomStates))) as [operation|] eqn:E.
    + apply last_Some in E as [ops E]. rewrite E, removelast_last. simpl.
      rewrite length_app. simpl.
      replace (length ops + 1 - S n) with (length ops - n) by lia.
      split.
      * by rewrite take_app_le by lia.
      * rewrite drop_app_le by lia. by rewrite reverse_app, <-(assoc app).
    + apply last_None in E. rewrite E. simpl. by rewrite !app_nil_r.
Qed.

Lemma redos_ledger n roomId roomStates :
  let state := ledger roomId roomStates in
  let after := ledger roomId (calls id (replicate n (Redo roomId)) roomStates) in
  operations after
  = operations state ++ reverse (drop (length (undoStack state) - n) (undoStack state)) ∧
  undoStack after = take (length (undoStack state) - n) (undoStack state).
Proof.
  revert roomStates. induction n as [|n IH]; intros roomStates; simpl.
  - rewrite Nat.sub_0_r, firstn_all, drop_all. by rewrite app_nil_r.
  - destruct (IH (redo id roomId roomStates).2) as [Hops Hundo].
    rewrite Hops, Hundo, redo_ledger. clear IH Hops Hundo.
    destruct (last (undoStack (ledger roomId roomStates))) as [operation|] eqn:E.
    + apply last_Some in E as [undone E]. rewrite E, removelast_last. simpl.
      rewrite length_app. simpl.
      replace (length undone + 1 - S n) with (length undone - n) by lia.
      split.
      * rewrite drop_app_le by lia. by rewrite reverse_app, <-(assoc app).
      * by rewrite take_app_le by lia.
    + apply last_None in E. rewrite E. simpl. by rewrite !app_nil_r.
Qed.

(** Undo is last in, first out.  [n] undos in a row move the last [n]
    operations of the log onto the undo stack, the latest first; undos
    beyond the length of the log change nothing. *)
Theorem undo_many n roomId roomStates :
  let state := ledger roomId roomStates in
  let after := ledger roomId (calls id (replicate n (Undo roomId)) roomStates) in
  operations after = take (length (operations state) - n) (operations state) ∧
  undoStack after
  = undoStack state ++ reverse (drop (length (operations state) - n) (operations state)).
Proof. intros state after. apply undos_ledger. Qed.

(** Redo replays in the order of the log.  [n] redos in a row append the
    last [n] operations of the undo stack to the log, the latest undone
    first; redos beyond the height of the stack change nothing. *)
Theorem redo_many n roomId roomStates :
  let state := ledger roomId roomStates in
  let after := ledger roomId (calls id (replicate n (Redo roomId)) roomStates) in
  operations after
  = operations state ++ reverse (drop (length (undoStack state) - n) (undoStack state)) ∧
  undoStack after = take (length (undoStack state) - n) (undoStack state).
Proof. intros state after. apply redos_ledger. Qed.


(** *** Round trips *)

Lemma reachable_ledger_eq roomId roomStates roomStates' :
  reachable id roomStates → reachable id roomStates' →
  operations (ledger roomId roomStates') = operations (ledger roomId roomStates) →
  undoStack (ledger roomId roomStates') = undoStack (ledger roomId roomStates) →
  ledger roomId roomStates' = ledger roomId roomStates.
Proof.
  intros Hr Hr' Hops Hundo.
  pose proof (reachable_well_formed id _ roomId Hr) as (Hc & _ & _).
  pose proof (reachable_well_formed id _ roomId Hr') as (Hc' & _ & _).
  rewrite Hops in Hc'. rewrite <-Hc in Hc'.
  destruct (ledger roomId roomStates), (ledger roomId roomStates').
  simpl in *. by subst.
Qed.

Lemma appended_undos n roomId :
  appended id (replicate n (@Undo Operation roomId)) = [].
Proof. by induction n. Qed.

Lemma appended_redos n roomId :
  appended id (replicate n (@Redo Operation roomId)) = [].
Proof. by induction n. Qed.

Lemma undos_redos_other n m roomId r roomStates :
  r ≠ roomId →
  ledger r (calls id (replicate n (Undo roomId) ++ replicate m (Redo roomId)) roomStates)
  = ledger r roomStates.
Proof.
  intros Hne. apply calls_ledger_other, Forall_app. split.
  - apply Forall_replicate. simpl. congruence.
  - apply Forall_replicate. simpl. congruence.
Qed.

(** Undo/redo round trip.  In a reachable manager, [n] undos followed by
    [n] redos, for [n] at most the length of the room's log, leave the
    ledger of every room exactly as it was: operations, undo stack and
    index. *)
Theorem undo_redo_many n roomId roomStates :
  reachable id roomStates →
  n ≤ length (operations (ledger roomId roomStates)) →
  ∀ r, ledger r (calls id (replicate n (Undo roomId) ++ replicate n (Redo roomId))
                   roomStates)
       = ledger r roomStates.
Proof.
  intros Hreach Hn r. destruct (decide (r = roomId)) as [->|Hne].
  - apply reachable_ledger_eq; [done| | |].
    + apply reachable_calls; [done|].
      by rewrite appended_app, appended_undos, appended_redos.
    + rewrite calls_app.
      destruct (redos_ledger n roomId (calls id (replicate n (Undo roomId)) roomStates))
        as [-> _].
      destruct (undos_ledger n roomId roomStates) as [-> ->].
      rewrite length_app, length_reverse, length_drop.
      replace (length (undoStack (ledger roomId roomStates))
               + (length (operations (ledger roomId roomStates))
                  - (length (operations (ledger roomId roomStates)) - n)) - n)
        with (length (undoStack (ledger roomId roomStates))) by lia.
      rewrite drop_app_length, reverse_involutive. apply take_drop.
    + rewrite calls_app.
      destruct (redos_ledger n roomId (calls id (replicate n (Undo roomId)) roomStates))
        as [_ ->].
      destruct (undos_ledger n roomId roomStates) as [_ ->].
      rewrite length_app, length_reverse, length_drop.
      replace (length (undoStack (ledger roomId roomStates))
               + (length (operations (ledger roomId roomStates))
                  - (length (operations (ledger roomId roomStates)) - n)) - n)
        with (length (undoStack (ledger roomId roomStates))) by lia.
      apply take_app_length.
  - by apply undos_redos_other.
Qed.

(** Redo/undo round trip.  In a reachable manager, [n] redos followed by
    [n] undos, for [n] at most the height of the room's undo stack, leave
    the ledger of every room exactly as it was. *)
Theorem redo_undo_many n roomId roomStates :
  reachable id roomStates →
  n ≤ length (undoStack (ledger roomId roomStates)) →
  ∀ r, ledger r (calls id (replicate n (Redo roomId) ++ replicate n (Undo roomId))
                   roomStates)
       = ledger r roomStates.
Proof.
  intros Hreach Hn r. destruct (decide (r = roomId)) as [->|Hne].
  - apply reachable_ledger_eq; [done| | |].
    + apply reachable_calls; [done|].
      by rewrite appended_app, appended_undos, appended_redos.
    + rewrite calls_app.
      destruct (undos_ledger n roomId (calls id (replicate n (Redo roomId)) roomStates))
        as [-> _].
      destruct (redos_ledger n roomId roomStates) as [-> _].
      rewrite length_app, length_reverse, length_drop.
      replace (length (operations (ledger roomId roomStates))
               + (length (undoStack (ledger roomId roomStates))
                  - (length (undoStack (ledger roomId roomStates)) - n)) - n)
        with (length (operations (ledger roomId roomStates))) by lia.
      apply take_app_length.
    + rewrite calls_app.
      destruct (undos_ledger n roomId (calls id (replicate n (Redo roomId)) roomStates))
        as [Hops ->].
      destruct (redos_ledger n roomId roomStates) as [-> ->].
      rewrite length_app, length_reverse, length_drop.
      replace (length (operations (ledger roomId roomStates))
               + (length (undoStack (ledger roomId roomStates))
                  - (length (undoStack (ledger roomId roomStates)) - n)) - n)
        with (length (operations (ledger roomId roomStates))) by lia.
      rewrite drop_app_length, reverse_involutive. apply take_drop.
  - apply calls_ledger_other, Forall_app. split; apply Forall_replicate; simpl; congruence.
Qed.

(** The timeline is fixed.  Undo and redo only move the boundary between
    the log and the undone operations: through any sequence of [undo] and
    [redo] calls, the log followed by the undo stack read from its top is
    the same list in every room. *)
Theorem timeline_fixed (cs : list (@Call Operation)) r roomStates :
  Forall (λ c, ∃ roomId, c = Undo roomId ∨ c = Redo roomId) cs →
  timeline (ledger r (calls id cs roomStates)) = timeline (ledger r roomStates).
Proof.
  intros Hcs. revert roomStates.
  induction Hcs as [|c cs [roomId Hc] _ IH]; intros roomStates; [done|].
  simpl. rewrite IH. clear IH.
  destruct (decide (roomId = r)) as [->|Hne].
  - destruct Hc as [-> | ->]; simpl; unfold timeline.
    + rewrite undo_ledger.
      destruct (last (operations (ledger r roomStates))) as [operation|] eqn:E;
        [|done].
      apply last_Some in E as [ops E]. rewrite E, removelast_last. simpl.
      by rewrite reverse_app, <-(assoc app).
    + rewrite redo_ledger.
      destruct (last (undoStack (ledger r roomStates))) as [operation|] eqn:E;
        [|done].
      apply last_Some in E as [undone E]. rewrite E, removelast_last. simpl.
      by rewrite reverse_app, <-(assoc app).
  - f_equal. apply call_ledger_other. by destruct Hc as [-> | ->].
Qed.

(** No operation is held twice.  In a reachable manager the ids of the
    operations in a room's log and on its undo stack are pairwise distinct. *)
Theorem held_ids_distinct roomStates roomId :
  reachable id roomStates →
  NoDup (id <$> (operations (ledger roomId roomStates)
                 ++ undoStack (ledger roomId roomStates))).
Proof.
  intros Hreach. by destruct (reachable_well_formed id _ roomId Hreach) as (_ & ? & _).
Qed.


End more.

(** *** Instances on the ledger of named strokes *)

Lemma sample_reachable :
  reachable (λ s : string, s) (calls (λ s : string, s) sample_calls ∅).
Proof. exists sample_calls. split; [exact sample_calls_distinct | reflexivity]. Defined.

Lemma sample_undone_reachable :
  reachable (λ s : string, s)
    (calls (λ s : string, s) (sample_calls ++ [Undo "room"]) ∅).
Proof.
  exists (sample_calls ++ [Undo "room"]). split; [|reflexivity].
  apply (bool_decide_unpack _). by vm_compute.
Defined.

Lemma getOperation_finds_witness :
  let log := operations (ledger "room" (calls (λ s : string, s) sample_calls ∅)) in
  let result :=
    (getOperation "room" "toString" (calls (λ s : string, s) sample_calls ∅)).1 in
  (∀ operation,
     result = Found operation
     ↔ (operation ∈ log ∧ operation = "toString") ∧ "toString" ≠ "__proto__") ∧
  (result = Undefined
   ↔ "toString" ∈ prototype_names
     ∧ ("toString" = "__proto__" ∨ "toString" ∉ (λ s : string, s) <$> log)) ∧
  (result = Null
   ↔ ("toString" ∉ prototype_names) ∧ ("toString" ∉ (λ s : string, s) <$> log)).
Proof.
  apply (getOperation_finds (λ s : string, s)
           (calls (λ s : string, s) sample_calls ∅) "room" "toString").
  exact sample_reachable.
Defined.

Lemma calls_other_room_witness :
  ledger "lobby"
    (calls (λ s : string, s) [AddOperation "room" "x"; Undo "room"; ClearState "room"] ∅)
  = ledger "lobby" (∅ : gmap string (@RoomState string)).
Proof.
  apply (calls_other_room (λ s : string, s)
           [AddOperation "room" "x"; Undo "room"; ClearState "room"] "lobby" ∅).
  repeat constructor; by vm_compute.
Defined.

Lemma undo_redo_many_witness :
  ledger "room"
    (calls (λ s : string, s) (replicate 2 (Undo "room") ++ replicate 2 (Redo "room"))
       (calls (λ s : string, s) sample_calls ∅))
  = ledger "room" (calls (λ s : string, s) sample_calls ∅).
Proof.
  apply (undo_redo_many (λ s : string, s) 2 "room"
           (calls (λ s : string, s) sample_calls ∅)).
  - exact sample_reachable.
  - vm_compute. lia.
Defined.

Lemma redo_undo_many_witness :
  ledger "room"
    (calls (λ s : string, s) (replicate 1 (Redo "room") ++ replicate 1 (Undo "room"))
       (calls (λ s : string, s) (sample_calls ++ [Undo "room"]) ∅))
  = ledger "room" (calls (λ s : string, s) (sample_calls ++ [Undo "room"]) ∅).
Proof.
  apply (redo_undo_many (λ s : string, s) 1 "room"
           (calls (λ s : string, s) (sample_calls ++ [Undo "room"]) ∅)).
  - exact sample_undone_reachable.
  - vm_compute. lia.
Defined.

Lemma timeline_fixed_witness :
  timeline
    (ledger "room"
       (calls (λ s : string, s) [Undo "room"; Undo "room"; Redo "room"; Undo "lobby"]
          (calls (λ s : string, s) sample_calls ∅)))
  = timeline (ledger "room" (calls (λ s : string, s) sample_calls ∅)).
Proof.
  apply (timeline_fixed (λ s : string, s)
           [Undo "room"; Undo "room"; Redo "room"; Undo "lobby"] "room"
           (calls (λ s : string, s) sample_calls ∅)).
  repeat constructor; eexists; (by left) || (by right).
Defined.

Lemma held_ids_distinct_witness :
  NoDup
    ((λ s : string, s) <$>
       (operations (ledger "room" (calls (λ s : string, s) (sample_calls ++ [Undo "room"]) ∅))
        ++ undoStack (ledger "room" (calls (λ s : string, s) (sample_calls ++ [Undo "room"]) ∅)))).
Proof.
  apply (held_ids_distinct (λ s : string, s)
           (calls (λ s : string, s) (sample_calls ++ [Undo "room"]) ∅) "room").
  exact sample_undone_reachable.
Defined.

End LedgerMore.

(** * Properties of the room manager *)

Module RoomsFacts.
Import JS Rooms.

Implicit Types (rooms : gmap string (list (string * UserData))).
Implicit Types (room : list (string * UserData)).

(** *** The ordered maps *)

Lemma map_set_keys {V} k (v : V) m :
  (map_set k v m).*1 = if bool_decide (k ∈ m.*1) then m.*1 else m.*1 ++ [k].
Proof.
  induction m as [|[k' v'] m IH]; [done|]. cbn [map_set fst].
  rewrite fmap_cons. cbn [fst].
  destruct (decide (k' = k)) as [->|Hne].
  - rewrite !bool_decide_eq_true_2; [done | by left | done].
  - rewrite (bool_decide_eq_false_2 (k' = k)) by done.
    rewrite fmap_cons, IH. cbn [fst].
    destruct (decide (k ∈ m.*1)) as [Hin|Hin].
    + rewrite !bool_decide_eq_true_2; [done|by right|done].
    + rewrite !bool_decide_eq_false_2; [done| |done].
      intros [?|?]%elem_of_cons; by subst.
Qed.

Lemma map_set_length {V} k (v : V) m :
  length (map_set k v m) = if bool_decide (k ∈ m.*1) then length m else S (length m).
Proof.
  rewrite <-(length_fmap fst), map_set_keys.
  case_bool_decide; rewrite ?length_app, length_fmap; simpl; lia.
Qed.

Lemma map_get_set_eq {V} k (v : V) m : map_get k (map_set k v m) = Some v.
Proof.
  induction m as [|[k' v'] m IH]; simpl.
  - by rewrite bool_decide_eq_true_2.
  - case_bool_decide as Hk; simpl.
    + by rewrite bool_decide_eq_true_2.
    + by rewrite bool_decide_eq_false_2.
Qed.

Lemma map_get_set_ne {V} k k' (v : V) m :
  k' ≠ k → map_get k' (map_set k v m) = map_get k' m.
Proof.
  intros Hne. induction m as [|[k'' v''] m IH]; simpl.
  - by rewrite bool_decide_eq_false_2.
  - case_bool_decide as Hk; simpl.
    + subst. by rewrite !bool_decide_eq_false_2.
    + by rewrite IH.
Qed.

Lemma map_get_None {V} k (m : list (string * V)) :
  map_get k m = None ↔ k ∉ m.*1.
Proof.
  induction m as [|[k' v'] m IH]; simpl.
  - split; [intros _; apply not_elem_of_nil | done].
  - case_bool_decide as Hk; simpl in *.
    + subst. split; [done|]. intros []. by left.
    + rewrite IH, not_elem_of_cons. naive_solver.
Qed.

Lemma map_get_elem_of {V} k (v : V) m :
  map_get k m = Some v → (k, v) ∈ m.
Proof.
  induction m as [|[k' v'] m IH]; simpl; [done|].
  case_bool_decide as Hk; simpl in *.
  - intros [= <-]. subst. by left.
  - intros ?. right. by apply IH.
Qed.

Lemma map_delete_absent {V} k (m : list (string * V)) :
  k ∉ m.*1 → map_delete k m = m.
Proof.
  induction m as [|[k' v'] m IH]; simpl; [done|].
  intros [Hne Hk]%not_elem_of_cons.
  rewrite bool_decide_eq_false_2 by done. by rewrite IH.
Qed.

Lemma map_delete_set {V} k (v : V) m :
  k ∉ m.*1 → map_delete k (map_set k v m) = m.
Proof.
  induction m as [|[k' v'] m IH]; simpl.
  - intros _. by rewrite bool_decide_eq_true_2.
  - intros [Hne Hk]%not_elem_of_cons.
    rewrite bool_decide_eq_false_2 by done. simpl.
    rewrite bool_decide_eq_false_2 by done. by rewrite IH.
Qed.

Lemma map_delete_sublist {V} k (m : list (string * V)) :
  map_delete k m `sublist_of` m.
Proof.
  induction m as [|[k' v'] m IH]; simpl; [done|].
  case_bool_decide; [by apply sublist_cons | by apply sublist_skip].
Qed.

Lemma map_delete_gone {V} k (m : list (string * V)) :
  NoDup m.*1 → k ∉ (map_delete k m).*1.
Proof.
  induction m as [|[k' v'] m IH]; simpl; [intros _; apply not_elem_of_nil|].
  intros [Hfresh Hnd]%NoDup_cons. case_bool_decide as Hk; simpl in *.
  - by subst.
  - apply not_elem_of_cons. split; [done | by apply IH].
Qed.

Lemma map_set_elem_of {V} k (v : V) m entry :
  entry ∈ map_set k v m → entry = (k, v) ∨ entry ∈ m.
Proof.
  induction m as [|[k' v'] m IH]; simpl.
  - intros ?%list_elem_of_singleton. by left.
  - case_bool_decide; simpl.
    + intros [->|?]%elem_of_cons; [by left | right; by right].
    + intros [->|Hin]%elem_of_cons; [right; by left|].
      destruct (IH Hin) as [->|?]; [by left | right; by right].
Qed.

Lemma map_set_not_nil {V} k (v : V) m : map_set k v m ≠ [].
Proof. destruct m as [|[k' v'] m]; simpl; [done|]. by case_bool_decide. Qed.

Lemma color_in_palette n :
  nth (n `mod` length availableColors) availableColors "" ∈ availableColors.
Proof.
  apply list_elem_of_In, nth_In, Nat.mod_upper_bound. done.
Qed.

(** *** The methods *)

Lemma addUser_eq roomId userId username now rooms :
  addUser roomId userId username now rooms
  = (nth (length (default [] (rooms !! roomId)) `mod` length availableColors)
         availableColors "",
     <[roomId :=
         map_set userId
           (mkUserData username
              (nth (length (default [] (rooms !! roomId)) `mod` length availableColors)
                   availableColors "") now)
           (default [] (rooms !! roomId))]> rooms).
Proof.
  unfold addUser. destruct (rooms !! roomId) as [room|] eqn:E.
  - by rewrite E.
  - by rewrite lookup_insert_eq, insert_insert_eq.
Qed.

Lemma rooms_ok_empty : rooms_ok ∅.
Proof. intros roomId room Hroom. by rewrite lookup_empty in Hroom. Qed.

Lemma rooms_ok_default rooms roomId :
  rooms_ok rooms →
  NoDup (default [] (rooms !! roomId)).*1 ∧
  Forall (λ entry, color entry.2 ∈ availableColors) (default [] (rooms !! roomId)).
Proof.
  intros Hok. destruct (rooms !! roomId) as [room|] eqn:E; simpl.
  - by destruct (Hok _ _ E) as (_ & ? & ?).
  - split; constructor.
Qed.

Lemma room_call_ok c rooms : rooms_ok rooms → rooms_ok (room_call c rooms).
Proof.
  intros Hok. destruct c as [roomId userId username now|roomId userId];
    cbn [room_call].
  - rewrite addUser_eq. cbn [snd]. intros r room Hroom.
    rewrite lookup_insert in Hroom. case_decide as Hr; [|by eapply Hok].
    injection Hroom as <-. destruct (rooms_ok_default _ roomId Hok) as [Hnd Hcolors].
    split_and!.
    + apply map_set_not_nil.
    + rewrite map_set_keys. case_bool_decide as Hin; [done|].
      apply NoDup_app. split_and!; [done| |apply NoDup_singleton].
      intros k Hk ->%list_elem_of_singleton. done.
    + apply Forall_forall. intros entry [->|Hin]%map_set_elem_of.
      * apply color_in_palette.
      * by eapply Forall_forall in Hcolors.
  - unfold removeUser. destruct (rooms !! roomId) as [room|] eqn:E; [|done].
    simpl. destruct (Hok _ _ E) as (_ & Hnd & Hcolors).
    intros r room' Hroom. case_bool_decide as Hlen.
    + rewrite lookup_delete in Hroom. case_decide; [done|].
      rewrite lookup_insert_ne in Hroom by done. by eapply Hok.
    + rewrite lookup_insert in Hroom. case_decide as Hr; [|by eapply Hok].
      injection Hroom as <-. split_and!.
      * intros Hnil. by rewrite Hnil in Hlen.
      * eapply sublist_NoDup; [done|]. apply fmap_sublist, map_delete_sublist.
      * apply Forall_forall. intros entry Hin.
        eapply Forall_forall in Hcolors; [done|].
        by eapply sublist_subseteq; [apply map_delete_sublist|].
Qed.

Lemma room_calls_ok cs rooms : rooms_ok rooms → rooms_ok (room_calls cs rooms).
Proof.
  revert rooms. induction cs as [|c cs IH]; intros rooms Hok; [done|].
  simpl. by apply IH, room_call_ok.
Qed.

(** Invariant of the room manager.  After any sequence of [addUser] and
    [removeUser] calls on the initial manager, every room that is registered
    has at least one user, lists no user id twice, and every user's color is
    one of the twelve palette colors; so [getUsers] never lists a user
    twice. *)
Theorem room_manager_invariant cs roomId :
  let rooms := room_calls cs ∅ in
  (∀ room, rooms !! roomId = Some room →
     room ≠ [] ∧ NoDup room.*1 ∧
     Forall (λ entry, color entry.2 ∈ availableColors) room) ∧
  length (getUsers roomId rooms) = length (default [] (rooms !! roomId)) ∧
  (∀ userId, userExists roomId userId rooms = true
             ↔ ∃ user, getUser roomId userId rooms = IsUser user).
Proof.
  intros rooms. pose proof (room_calls_ok cs ∅ rooms_ok_empty) as Hok.
  fold rooms in Hok. split_and!.
  - intros room Hroom. by apply (Hok roomId).
  - unfold getUsers. destruct (rooms !! roomId); [|done]. apply length_fmap.
  - intros userId. unfold userExists, getUser, map_has.
    destruct (rooms !! roomId) as [room|]; [|split; [done | by intros [? ?]]].
    rewrite bool_decide_eq_true.
    destruct (map_get userId room) as [user|] eqn:E.
    + split; [by eexists|]. intros _. apply map_get_elem_of in E.
      apply list_elem_of_fmap. by exists (userId, user).
    + apply map_get_None in E. split; [done | by intros [? ?]].
Qed.

(** Join then look up.  After [addUser(roomId, userId, username)] on any
    manager, the color returned is one of the palette, [getUser] returns the
    record just stored, [userExists] is true, every other user of the room
    and every other room is as before. *)
Theorem addUser_then_get roomId userId username now rooms :
  let userColor := (addUser roomId userId username now rooms).1 in
  let joined := (addUser roomId userId username now rooms).2 in
  userColor ∈ availableColors ∧
  getUser roomId userId joined = IsUser (mkUserData username userColor now) ∧
  userExists roomId userId joined = true ∧
  (∀ other user, other ≠ userId → getUser roomId other rooms = IsUser user →
     getUser roomId other joined = IsUser user) ∧
  (∀ r, r ≠ roomId → joined !! r = rooms !! r).
Proof.
  rewrite addUser_eq. cbn [fst snd]. split_and!.
  - apply color_in_palette.
  - unfold getUser. by rewrite lookup_insert_eq, map_get_set_eq.
  - unfold userExists, map_has. rewrite lookup_insert_eq, bool_decide_eq_true.
    rewrite map_set_keys. case_bool_decide; [done|].
    apply elem_of_app. right. by left.
  - intros other user Hne. unfold getUser. rewrite lookup_insert_eq.
    destruct (rooms !! roomId) as [room|]; [|done]. simpl.
    by rewrite map_get_set_ne.
  - intros r Hr. by rewrite lookup_insert_ne.
Qed.

(** Leaving undoes joining.  In a manager whose rooms are all non-empty and
    list no user twice, a user who was not in the room joins and leaves:
    [removeUser] returns the record stored by [addUser], and the manager is
    exactly as it was before the join (a room created by the join is
    dropped again). *)
Theorem join_leave_round_trip roomId userId username now rooms :
  rooms_ok rooms →
  userExists roomId userId rooms = false →
  removeUser roomId userId (addUser roomId userId username now rooms).2
  = (IsUser (mkUserData username (addUser roomId userId username now rooms).1 now),
     rooms).
Proof.
  intros Hok Hnew. rewrite addUser_eq. cbn [fst snd].
  unfold removeUser. rewrite lookup_insert_eq, map_get_set_eq.
  assert (Habsent : userId ∉ (default [] (rooms !! roomId)).*1).
  { unfold userExists, map_has in Hnew. destruct (rooms !! roomId); simpl.
    - by apply bool_decide_eq_false in Hnew.
    - apply not_elem_of_nil. }
  rewrite map_delete_set by done. f_equal.
  destruct (rooms !! roomId) as [room|] eqn:E; simpl.
  - destruct (Hok _ _ E) as (Hne & _ & _).
    rewrite bool_decide_eq_false_2 by (by destruct room).
    by rewrite insert_insert_eq, insert_id.
  - by rewrite insert_insert_eq, delete_insert_eq, delete_id.
Qed.

(** Removing a user who is not there.  In such a manager, [removeUser] for a
    room that is not registered returns [null], for a registered room
    without that user returns [undefined], and in both cases leaves the
    manager as it was. *)
Theorem removeUser_absent roomId userId rooms :
  rooms_ok rooms →
  userExists roomId userId rooms = false →
  removeUser roomId userId rooms
  = (match rooms !! roomId with Some _ => IsUndefined | None => IsNull end, rooms).
Proof.
  intros Hok Hnew. unfold removeUser, userExists, map_has in *.
  destruct (rooms !! roomId) as [room|] eqn:E; [|done].
  apply bool_decide_eq_false in Hnew. destruct (Hok _ _ E) as (Hne & _ & _).
  rewrite map_delete_absent by done.
  apply map_get_None in Hnew. rewrite Hnew.
  rewrite bool_decide_eq_false_2 by (by destruct room).
  by rewrite insert_id.
Qed.

(** *** Users joining in turn *)

Lemma map_set_absent {V} k (v : V) m : k ∉ m.*1 → map_set k v m = m ++ [(k, v)].
Proof.
  induction m as [|[k' v'] m IH]; [done|]. simpl.
  intros [Hne Hk]%not_elem_of_cons.
  rewrite bool_decide_eq_false_2 by done. by rewrite IH.
Qed.

Lemma joins_room roomId joiners rooms room :
  default [] (rooms !! roomId) = room →
  NoDup (room.*1 ++ joiners.*1.*1) →
  default [] (room_calls (joins roomId joiners) rooms !! roomId)
  = room
    ++ imap (λ i j,
         (j.1.1,
          mkUserData j.1.2
            (nth ((length room + i) `mod` length availableColors) availableColors "")
            j.2)) joiners.
Proof.
  revert rooms room. induction joiners as [|[[userId username] now] joiners IH];
    intros rooms room Hroom Hnd.
  - simpl. by rewrite app_nil_r.
  - cbn [joins fmap list_fmap room_calls room_call fst snd] in *.
    rewrite addUser_eq, Hroom. cbn [snd].
    assert (Hnew : userId ∉ room.*1).
    { apply NoDup_app in Hnd as (_ & Hdisj & _). intros Hin.
      apply (Hdisj _ Hin). by left. }
    rewrite map_set_absent by done.
    rewrite (IH _ (room ++
      [(userId,
        mkUserData username
          (nth (length room `mod` length availableColors) availableColors "") now)])).
    + rewrite <-(assoc app). f_equal. rewrite imap_cons. cbn [app fst snd].
      rewrite Nat.add_0_r. f_equal.
      apply imap_ext. intros i j _. unfold compose.
      rewrite length_app. cbn [length].
      by replace (length room + 1 + i) with (length room + S i) by lia.
    + by rewrite lookup_insert_eq.
    + rewrite fmap_app, <-(assoc app). done.
Qed.

Lemma getUsers_default roomId rooms :
  getUsers roomId rooms
  = (λ entry, user_entry entry.1 entry.2) <$> default [] (rooms !! roomId).
Proof. unfold getUsers. by destruct (rooms !! roomId). Qed.

(** Join order and colors.  Users with distinct ids joining a room that is
    not registered are listed by [getUsers] in the order they joined, the
    [i]-th of them (from 0) with the palette color of index [i mod 12];
    when at most twelve join, their colors are pairwise distinct. *)
Theorem joiners_listed_in_order roomId joiners rooms :
  rooms !! roomId = None →
  NoDup joiners.*1.*1 →
  let joined := room_calls (joins roomId joiners) rooms in
  getUsers roomId joined
  = imap (λ i j,
      user_entry j.1.1
        (mkUserData j.1.2 (nth (i `mod` length availableColors) availableColors "") j.2))
      joiners ∧
  (length joiners ≤ length availableColors →
   (λ entry, color entry.2) <$> default [] (joined !! roomId)
   = take (length joiners) availableColors).
Proof.
  intros Hnone Hnd joined.
  assert (Hroom : default [] (joined !! roomId)
    = imap (λ i j,
        (j.1.1,
         mkUserData j.1.2 (nth (i `mod` length availableColors) availableColors "") j.2))
        joiners).
  { subst joined. rewrite (joins_room _ _ _ []); [done|by rewrite Hnone|done]. }
  split.
  - rewrite getUsers_default, Hroom, fmap_imap. done.
  - intros Hlen. rewrite Hroom, fmap_imap.
    apply list_eq. intros i.
    rewrite list_lookup_imap, lookup_take.
    destruct (joiners !! i) as [j|] eqn:E; cbn [fmap option_fmap option_map compose].
    + pose proof (lookup_lt_Some _ _ _ E) as Hi. case_decide; [|lia].
      cbn [snd color]. rewrite Nat.mod_small by lia.
      destruct (availableColors !! i) as [c|] eqn:Ec.
      * f_equal. by apply nth_lookup_Some.
      * apply lookup_ge_None in Ec. lia.
    + apply lookup_ge_None in E. case_decide; [lia|done].
Qed.

(** Colors are not unique.  The color is chosen from the head count alone:
    when two users have joined an unregistered room, the first leaves and a
    third joins, the third gets the color of the second, and [getUsers]
    lists two users with the same color. *)
Theorem color_shared_after_leave
    roomId first second third name1 name2 name3 t1 t2 t3 rooms :
  rooms !! roomId = None →
  first ≠ second → third ≠ second →
  getUsers roomId
    (room_calls
       [AddUser roomId first name1 t1; AddUser roomId second name2 t2;
        RemoveUser roomId first; AddUser roomId third name3 t3] rooms)
  = [user_entry second (mkUserData name2 "#4ECDC4" t2);
     user_entry third (mkUserData name3 "#4ECDC4" t3)].
Proof.
  intros Hnone H12 H32. cbn [room_calls room_call].
  assert (H1 : (addUser roomId first name1 t1 rooms).2
               = <[roomId := [(first, mkUserData name1 "#FF6B6B" t1)]]> rooms).
  { rewrite addUser_eq, Hnone. done. }
  assert (H2 : (addUser roomId second name2 t2
                  (<[roomId := [(first, mkUserData name1 "#FF6B6B" t1)]]> rooms)).2
               = <[roomId := [(first, mkUserData name1 "#FF6B6B" t1);
                              (second, mkUserData name2 "#4ECDC4" t2)]]> rooms).
  { rewrite addUser_eq, lookup_insert_eq. simpl.
    rewrite bool_decide_eq_false_2 by done. by rewrite insert_insert_eq. }
  assert (H3 : (removeUser roomId first
                  (<[roomId := [(first, mkUserData name1 "#FF6B6B" t1);
                                (second, mkUserData name2 "#4ECDC4" t2)]]> rooms)).2
               = <[roomId := [(second, mkUserData name2 "#4ECDC4" t2)]]> rooms).
  { unfold removeUser. rewrite lookup_insert_eq. simpl.
    rewrite (bool_decide_eq_true_2 (first = first)) by done. simpl.
    by rewrite insert_insert_eq. }
  assert (H4 : (addUser roomId third name3 t3
                  (<[roomId := [(second, mkUserData name2 "#4ECDC4" t2)]]> rooms)).2
               = <[roomId := [(second, mkUserData name2 "#4ECDC4" t2);
                              (third, mkUserData name3 "#4ECDC4" t3)]]> rooms).
  { rewrite addUser_eq, lookup_insert_eq. simpl.
    rewrite bool_decide_eq_false_2 by done. by rewrite insert_insert_eq. }
  rewrite H1, H2, H3, H4. unfold getUsers. by rewrite lookup_insert_eq.
Qed.

(** *** Instances *)

Lemma studio_ok :
  rooms_ok (room_calls [AddUser "studio" "s1" (VString "Ann") 10] ∅).
Proof. apply room_calls_ok, rooms_ok_empty. Defined.

Lemma join_leave_round_trip_witness :
  removeUser "studio" "s2"
    (addUser "studio" "s2" (VString "Bob") 20
       (room_calls [AddUser "studio" "s1" (VString "Ann") 10] ∅)).2
  = (IsUser (mkUserData (VString "Bob")
       (addUser "studio" "s2" (VString "Bob") 20
          (room_calls [AddUser "studio" "s1" (VString "Ann") 10] ∅)).1 20),
     room_calls [AddUser "studio" "s1" (VString "Ann") 10] ∅).
Proof.
  apply (join_leave_round_trip "studio" "s2" (VString "Bob") 20
           (room_calls [AddUser "studio" "s1" (VString "Ann") 10] ∅)).
  - exact studio_ok.
  - by vm_compute.
Defined.

Lemma removeUser_absent_witness :
  removeUser "studio" "s9" (room_calls [AddUser "studio" "s1" (VString "Ann") 10] ∅)
  = (match room_calls [AddUser "studio" "s1" (VString "Ann") 10] ∅ !! "studio" with
     | Some _ => IsUndefined
     | None => IsNull
     end,
     room_calls [AddUser "studio" "s1" (VString "Ann") 10] ∅).
Proof.
  apply (removeUser_absent "studio" "s9"
           (room_calls [AddUser "studio" "s1" (VString "Ann") 10] ∅)).
  - exact studio_ok.
  - by vm_compute.
Defined.

Lemma joiners_listed_in_order_witness :
  getUsers "studio"
    (room_calls
       (joins "studio" [("s1", VString "Ann", 10%Z); ("s2", VString "Bob", 20%Z)]) ∅)
  = imap (λ i j,
      user_entry j.1.1
        (mkUserData j.1.2 (nth (i `mod` length availableColors) availableColors "") j.2))
      [("s1", VString "Ann", 10%Z); ("s2", VString "Bob", 20%Z)].
Proof.
  apply (joiners_listed_in_order "studio"
           [("s1", VString "Ann", 10%Z); ("s2", VString "Bob", 20%Z)] ∅).
  - reflexivity.
  - apply (bool_decide_unpack _). by vm_compute.
Defined.

Lemma color_shared_after_leave_witness :
  getUsers "studio"
    (room_calls
       [AddUser "studio" "s1" (VString "Ann") 10; AddUser "studio" "s2" (VString "Bob") 20;
        RemoveUser "studio" "s1"; AddUser "studio" "s3" (VString "Cy") 30] ∅)
  = [user_entry "s2" (mkUserData (VString "Bob") "#4ECDC4" 20);
     user_entry "s3" (mkUserData (VString "Cy") "#4ECDC4" 30)].
Proof.
  apply (color_shared_after_leave "studio" "s1" "s2" "s3"
           (VString "Ann") (VString "Bob") (VString "Cy") 10 20 30 ∅);
    [reflexivity | done | done].
Defined.

End RoomsFacts.

(** * Properties of the presence handlers *)

Module PresenceFacts.
Import JS Server Rooms Presence RoomsFacts.
Import Ledger LedgerFacts ServerFacts.

Lemma find_app_first {A} (f : A → bool) (l1 l2 : list A) :
  find f (l1 ++ l2)
  = match find f l1 with Some x => Some x | None => find f l2 end.
Proof. induction l1 as [|x l1 IH]; simpl; [done|]. by destruct (f x). Qed.

Lemma socket_rooms_join sids socket_id room :
  socket_rooms (socket_join sids socket_id room) socket_id
  = if bool_decide (room ∈ socket_rooms sids socket_id)
    then socket_rooms sids socket_id
    else socket_rooms sids socket_id ++ [room].
Proof.
  unfold socket_join. case_bool_decide; [done|].
  unfold socket_rooms. by rewrite lookup_insert_eq.
Qed.

(** The room a socket acts on is the first it joined.  After
    [socket.join(room)], for a [room] that is not the socket's own, the room
    that the socket's draw, undo, redo and clear-canvas act on is the first
    room it had joined before, when there is one, and [room] otherwise: a
    later join never changes it. *)
Theorem acting_room_is_first_joined sids socket_id room :
  room ≠ socket_id → room ≠ "" → "" ∉ socket_rooms sids socket_id →
  roomIdOf (socket_join sids socket_id room) socket_id
  = match find (λ r, negb (bool_decide (r = socket_id))) (socket_rooms sids socket_id) with
    | Some first => first
    | None => room
    end.
Proof.
  intros Hown Hnamed Hrooms. unfold roomIdOf. rewrite socket_rooms_join.
  case_bool_decide as Hin.
  - destruct (find _ _) as [first|] eqn:E.
    + apply find_some in E as [Hfirst _]. apply list_elem_of_In in Hfirst.
      rewrite bool_decide_eq_false_2; [done|]. by intros ->.
    + apply list_elem_of_In in Hin. apply (find_none _ _ E) in Hin.
      by rewrite bool_decide_eq_false_2 in Hin.
  - rewrite find_app_first. destruct (find _ _) as [first|] eqn:E.
    + apply find_some in E as [Hfirst _]. apply list_elem_of_In in Hfirst.
      rewrite bool_decide_eq_false_2; [done|]. by intros ->.
    + simpl. rewrite (bool_decide_eq_false_2 (room = socket_id)) by done. simpl.
      by rewrite bool_decide_eq_false_2.
Qed.

Lemma acting_room_is_first_joined_witness :
  roomIdOf (socket_join sample_sids "s1" "gallery") "s1"
  = match find (λ r, negb (bool_decide (r = "s1"))) (socket_rooms sample_sids "s1") with
    | Some first => first
    | None => "gallery"
    end.
Proof.
  apply (acting_room_is_first_joined sample_sids "s1" "gallery"); [done|done|].
  apply (bool_decide_unpack _). by vm_compute.
Defined.


Lemma user_entry_listed roomId userId username now rooms :
  user_entry userId
    (mkUserData username (addUser roomId userId username now rooms).1 now)
  ∈ getUsers roomId (addUser roomId userId username now rooms).2.
Proof.
  rewrite getUsers_default, addUser_eq. cbn [fst snd].
  rewrite lookup_insert_eq. cbn [default from_option id].
  apply list_elem_of_fmap. eexists (userId, _). split; [done|].
  apply map_get_elem_of, map_get_set_eq.
Qed.

Lemma socket_join_member sids socket_id room :
  socket_id ∈ members (socket_join sids socket_id room) room.
Proof.
  apply elem_of_members. rewrite socket_rooms_join.
  case_bool_decide; [done|]. apply elem_of_app. right. by left.
Qed.

(** Joining.  For a payload whose [roomId] is a non-empty string, or that
    has none and so means "default-room", the join handler does not throw
    and emits two events: to the joiner alone an [initial-state] whose
    operations are exactly the log of the room's ledger and whose user list
    contains the joiner with the palette color assigned to it, and to the
    other members of the room a [user-joined].  Afterwards the joiner is a
    member of the room, and the ledger of every room is as it was. *)
Theorem join_room_snapshot socket_id now properties room w :
  (properties !! "roomId" = Some (VString room) ∧ room ≠ "")
  ∨ (properties !! "roomId" = None ∧ room = "default-room") →
  ∃ result users userColor joined,
    on_join_room socket_id now (VObject properties) w = Some result ∧
    error result = None ∧
    emits result
    = [mkEmit {[socket_id]} "initial-state"
         [VObject
            {["operations" := VArray (VObject <$> operations (ledger room (io_state w)));
              "users" := VArray users;
              "userColor" := VString userColor]}];
       mkEmit (members (io_sids (after result)) room ∖ {[socket_id]}) "user-joined"
         [joined]] ∧
    users = getUsers room (io_rooms (after result)) ∧
    userColor ∈ availableColors ∧
    (∃ username, user_entry socket_id (mkUserData username userColor now) ∈ users) ∧
    socket_id ∈ members (io_sids (after result)) room ∧
    (∀ r, ledger r (io_state (after result)) = ledger r (io_state w)).
Proof.
  intros Hroom.
  assert (Hname : or_else (default VUndefined (properties !! "roomId"))
                    (VString "default-room") = VString room).
  { destruct Hroom as [[-> Hne]|[-> ->]]; [|done]. unfold or_else. simpl.
    by rewrite bool_decide_eq_false_2. }
  unfold on_join_room. cbn [get]. rewrite Hname.
  set (username := or_else _ _).
  rewrite (surjective_pairing (addUser room socket_id username now (io_rooms w))).
  unfold getState. rewrite _getRoomState_ledger.
  eexists _, _, _, _.
  split_and!; [done|done|done|done| | | |];
    cbn [after io_rooms io_sids io_state fst snd].
  - rewrite addUser_eq. apply color_in_palette.
  - exists username. apply user_entry_listed.
  - apply socket_join_member.
  - intros r. rewrite ledger_insert. case_decide; by subst.
Qed.

Lemma join_room_snapshot_witness :
  ∃ result users userColor joined,
    on_join_room "s3" 50 (VObject {["roomId" := VString "studio"]})
      (mkWorld sample_sids ∅ ∅) = Some result ∧
    error result = None ∧
    emits result
    = [mkEmit {["s3"]} "initial-state"
         [VObject
            {["operations" :=
                VArray (VObject <$> operations
                          (ledger "studio" (io_state (mkWorld sample_sids ∅ ∅))));
              "users" := VArray users;
              "userColor" := VString userColor]}];
       mkEmit (members (io_sids (after result)) "studio" ∖ {["s3"]}) "user-joined"
         [joined]] ∧
    users = getUsers "studio" (io_rooms (after result)) ∧
    userColor ∈ availableColors ∧
    (∃ username, user_entry "s3" (mkUserData username userColor 50) ∈ users) ∧
    "s3" ∈ members (io_sids (after result)) "studio" ∧
    (∀ r, ledger r (io_state (after result))
          = ledger r (io_state (mkWorld sample_sids ∅ ∅))).
Proof.
  apply (join_room_snapshot "s3" 50 {["roomId" := VString "studio"]} "studio"
           (mkWorld sample_sids ∅ ∅)).
  left. split; [reflexivity | done].
Defined.

(** Leaving.  The disconnect handler never throws, leaves the adapter's
    table and every ledger untouched, emits one [user-left] to the others in
    the room it acts on, and changes the room manager in that room only.
    When the socket is in no room but its own at that moment, the room is
    "default-room": a user who had joined another room stays listed there. *)
Theorem disconnect_scope socket_id w :
  let roomId := roomIdOf (io_sids w) socket_id in
  let result := on_disconnect socket_id w in
  error result = None ∧
  io_sids (after result) = io_sids w ∧
  io_state (after result) = io_state w ∧
  (∃ left, emits result
           = [mkEmit (members (io_sids w) roomId ∖ {[socket_id]}) "user-left" [left]]) ∧
  (∀ r, r ≠ roomId → io_rooms (after result) !! r = io_rooms w !! r) ∧
  ((∀ r, r ∈ socket_rooms (io_sids w) socket_id → r = socket_id) →
   roomId = "default-room" ∧
   ∀ r, r ≠ "default-room" →
        getUser r socket_id (io_rooms (after result)) = getUser r socket_id (io_rooms w)).
Proof.
  intros roomId result. subst result. unfold on_disconnect. fold roomId.
  rewrite (surjective_pairing (removeUser roomId socket_id (io_rooms w))). cbn.
  assert (Hother : ∀ r, r ≠ roomId →
    (removeUser roomId socket_id (io_rooms w)).2 !! r = io_rooms w !! r).
  { intros r Hr. unfold removeUser.
    destruct (io_rooms w !! roomId) as [room|]; [|done]. cbn.
    case_bool_decide.
    - rewrite lookup_delete_ne by done. by rewrite lookup_insert_ne.
    - by rewrite lookup_insert_ne. }
  split_and!; [done|done|done|by eexists|done|].
  intros Hnone.
  assert (Hdefault : roomId = "default-room").
  { subst roomId. unfold roomIdOf.
    destruct (find _ _) as [found|] eqn:E; [|done].
    apply find_some in E as [Hin Hf]. apply list_elem_of_In, Hnone in Hin.
    subst. by rewrite bool_decide_eq_true_2 in Hf. }
  split; [done|]. intros r Hr. unfold getUser. rewrite Hother; [done|congruence].
Qed.

(** Cursor relay.  For a payload that is neither [null] nor [undefined] the
    cursor handler changes no state and emits one [cursor-move] to the
    members of the sender's room other than the sender; the object it sends
    has exactly the properties [userId], [x] and [y], the first being the
    sender's socket id whatever the payload carried, the other two the
    payload's own, unchecked.  For [null] or [undefined] it throws and emits
    nothing. *)
Theorem cursor_move_relay socket_id data w :
  let result := on_cursor_move socket_id data w in
  after result = w ∧
  match data with
  | VUndefined | VNull => emits result = [] ∧ error result = Some "TypeError"
  | _ =>
      error result = None ∧
      ∃ relayed,
        emits result
        = [mkEmit (members (io_sids w) (roomIdOf (io_sids w) socket_id) ∖ {[socket_id]})
             "cursor-move" [VObject relayed]] ∧
        dom relayed = {["userId"; "x"; "y"]} ∧
        relayed !! "userId" = Some (VString socket_id) ∧
        relayed !! "x" = Some (field data "x") ∧
        relayed !! "y" = Some (field data "y")
  end.
Proof.
  intros result. subst result. unfold on_cursor_move.
  destruct data as [| |b|n|s|elements|properties]; cbn [get]; (split; [done|]);
    try done;
    (split; [done|]); eexists; (split; [done|]);
    (split_and!; [rewrite !dom_insert_L, dom_singleton_L; set_solver | done..]).
Qed.

End PresenceFacts.

(** * Properties of the canvas manager *)

Module CanvasFacts.
Import JS Server Canvas ServerFacts.

Lemma clamp_coordinate (x : number) (size : N) :
  x ≠ NaN →
  ∃ q, math_max (of_Z 0) (math_min x (of_Z (Z.of_N size))) = Finite q ∧
       (Qc_of_Z 0 ≤ q)%Qc ∧ (q ≤ Qc_of_Z (Z.of_N size))%Qc ∧
       (∀ q0, x = Finite q0 → (Qc_of_Z 0 ≤ q0)%Qc → (q0 ≤ Qc_of_Z (Z.of_N size))%Qc →
              q = q0).
Proof.
  intros Hx.
  assert (Hsize : (Qc_of_Z 0 ≤ Qc_of_Z (Z.of_N size))%Qc) by (apply (proj1 (Z2Qc_inj_le _ _)); lia).
  destruct x as [| | |q0]; [done| | |]; unfold math_min, math_max, of_Z, number_lt.
  - (* +Infinity *)
    case_bool_decide as H0.
    + eexists. split_and!; [done|by apply Qclt_le_weak|done|done].
    + eexists. split_and!; [done|done|done|done].
  - (* -Infinity *)
    eexists. split_and!; [done|done|done|done].
  - case_bool_decide as Hw; case_bool_decide as H0.
    + eexists. split_and!; [done|by apply Qclt_le_weak|done|].
      intros ? [= <-] _ Hle. by apply Qcle_ngt in Hle.
    + eexists. split_and!; [done|done|done|].
      intros ? [= <-] _ Hle. by apply Qcle_ngt in Hle.
    + eexists. split_and!; [done|by apply Qclt_le_weak|by apply Qcle_ngt|].
      by intros ? [= <-] _ _.
    + eexists. split_and!; [done|done|done|].
      intros ? [= <-] Hge _. apply Qcle_ngt in H0. by apply (anti_symm Qcle).
Qed.

(** Clamping.  For coordinates that are not [NaN], whether finite or
    infinite, [clampToCanvas] returns finite coordinates inside the canvas,
    [0 ≤ x ≤ width] and [0 ≤ y ≤ height], and returns a point that already
    lies inside unchanged. *)
Theorem clampToCanvas_bounds x y m :
  x ≠ NaN → y ≠ NaN →
  ∃ qx qy,
    clampToCanvas x y m = (Finite qx, Finite qy) ∧
    (Qc_of_Z 0 ≤ qx)%Qc ∧ (qx ≤ Qc_of_Z (Z.of_N (width m)))%Qc ∧
    (Qc_of_Z 0 ≤ qy)%Qc ∧ (qy ≤ Qc_of_Z (Z.of_N (height m)))%Qc ∧
    (∀ px py, x = Finite px → y = Finite py →
       (Qc_of_Z 0 ≤ px)%Qc → (px ≤ Qc_of_Z (Z.of_N (width m)))%Qc →
       (Qc_of_Z 0 ≤ py)%Qc → (py ≤ Qc_of_Z (Z.of_N (height m)))%Qc →
       clampToCanvas x y m = (x, y)).
Proof.
  intros Hx Hy. unfold clampToCanvas.
  destruct (clamp_coordinate x (width m) Hx) as (qx & -> & ? & ? & Hfx).
  destruct (clamp_coordinate y (height m) Hy) as (qy & -> & ? & ? & Hfy).
  exists qx, qy. split_and!; [done..|].
  intros px py -> -> ? ? ? ?. by rewrite (Hfx px), (Hfy py).
Qed.

Lemma clampToCanvas_bounds_witness :
  ∃ qx qy,
    clampToCanvas (of_Z 900) NegInfinity sample_canvas = (Finite qx, Finite qy) ∧
    (Qc_of_Z 0 ≤ qx)%Qc ∧ (qx ≤ Qc_of_Z (Z.of_N (width sample_canvas)))%Qc ∧
    (Qc_of_Z 0 ≤ qy)%Qc ∧ (qy ≤ Qc_of_Z (Z.of_N (height sample_canvas)))%Qc ∧
    (∀ px py, of_Z 900 = Finite px → NegInfinity = Finite py →
       (Qc_of_Z 0 ≤ px)%Qc → (px ≤ Qc_of_Z (Z.of_N (width sample_canvas)))%Qc →
       (Qc_of_Z 0 ≤ py)%Qc → (py ≤ Qc_of_Z (Z.of_N (height sample_canvas)))%Qc →
       clampToCanvas (of_Z 900) NegInfinity sample_canvas = (of_Z 900, NegInfinity)).
Proof.
  apply (clampToCanvas_bounds (of_Z 900) NegInfinity sample_canvas); done.
Defined.

(** *** Collecting a stroke *)

Lemma draw_all moves m :
  isDrawing m = true →
  foldl (λ m p, (draw p.1 p.2 m).2) m moves
  = mkCanvasManager (width m) (height m) true
      (currentPath m ++ ((λ p, clampToCanvas p.1 p.2 m) <$> moves))
      (tool m) (color m) (strokeWidth m)
      (match last moves with
       | Some p => Some (clampToCanvas p.1 p.2 m)
       | None => lastPoint m
       end).
Proof.
  revert m. induction moves as [|p moves IH]; intros m Hdrawing.
  - simpl. rewrite app_nil_r. destruct m. simpl in *. by subst.
  - cbn [foldl]. unfold draw at 2. rewrite Hdrawing. cbn [negb snd].
    rewrite IH by done. unfold clampToCanvas. cbn. f_equal.
    + by rewrite <-(assoc app).
    + rewrite last_cons. by destruct (last moves).
Qed.

Lemma stroke_eq start moves m :
  stroke start moves m
  = (Some (path_data (point_object <$> ((λ p, clampToCanvas p.1 p.2 m) <$> start :: moves)) m),
     mkCanvasManager (width m) (height m) false [] (tool m) (color m) (strokeWidth m)
       None).
Proof.
  unfold stroke. rewrite draw_all by done. unfold stopDrawing. cbn. done.
Qed.

(** A stroke is what the pointer did.  Whatever state the manager is in,
    pointer down, any number of moves and pointer up make [stopDrawing]
    return a path whose points are the clamped pointer positions in order,
    one for the start and one for each move, so never an empty list, with
    the manager's current tool, color and stroke width; and the manager is
    left idle with an empty path, so that a further [stopDrawing] or [draw]
    returns [null]. *)
Theorem stroke_collects start moves m :
  let points := (λ p, clampToCanvas p.1 p.2 m) <$> start :: moves in
  let after := (stroke start moves m).2 in
  (stroke start moves m).1 = Some (path_data (point_object <$> points) m) ∧
  length points = S (length moves) ∧
  isDrawing after = false ∧ currentPath after = [] ∧
  tool after = tool m ∧ color after = color m ∧ strokeWidth after = strokeWidth m ∧
  stopDrawing after = (None, after) ∧
  (∀ x y, draw x y after = (None, after)).
Proof.
  intros points after. subst after. rewrite stroke_eq. cbn [fst snd].
  split_and!; try done. subst points. by rewrite length_fmap.
Qed.

Lemma clamped_point_ok p m :
  p.1 ≠ NaN → p.2 ≠ NaN → spec_point (point_object (clampToCanvas p.1 p.2 m)) = true.
Proof.
  intros H1 H2. unfold clampToCanvas.
  destruct (clamp_coordinate p.1 (width m) H1) as (qx & -> & _).
  destruct (clamp_coordinate p.2 (height m) H2) as (qy & -> & _).
  done.
Qed.

Lemma spec_points_all points :
  points ≠ [] → Forall (λ v, spec_point v = true) points →
  spec_points (VArray points) = true.
Proof.
  intros Hne Hall. destruct points as [|point points]; [done|].
  cbn [spec_points]. apply forallb_forall. intros v Hv.
  apply list_elem_of_In in Hv. by eapply Forall_forall in Hall.
Qed.

Lemma path_data_fields points m :
  field (path_data points m) "points" = VArray points ∧
  field (path_data points m) "tool" = tool m ∧
  field (path_data points m) "color" = color m ∧
  field (path_data points m) "strokeWidth" = strokeWidth m.
Proof. unfold field, path_data. by vm_compute. Qed.

(** The client's strokes pass the server's validation.  When the manager's
    tool is brush or eraser, its stroke width a number in [1, 50] and, for
    the brush, its color a '#' followed by six hex digits, then for pointer
    positions without [NaN] the path that [stopDrawing] returns, which
    main.js sends as the draw payload, is accepted by
    [validateDrawingData]. *)
Theorem stroke_validates start moves m name w :
  tool m = VString name → name ∈ validTools →
  strokeWidth m = VNumber (Finite w) →
  (Qc_of_Z 1 ≤ w)%Qc → (w ≤ Qc_of_Z 50)%Qc →
  (name = "eraser" ∨ ∃ c, color m = VString c ∧ test_hex_color c = true) →
  Forall (λ p, p.1 ≠ NaN ∧ p.2 ≠ NaN) (start :: moves) →
  ∃ payload,
    (stroke start moves m).1 = Some payload ∧
    validateDrawingData payload = Normal true.
Proof.
  intros Htool Hname Hwidth Hlo Hhi Hcolor Hpoints.
  rewrite stroke_eq. eexists. split; [done|].
  destruct (path_data_fields
    (point_object <$> ((λ p, clampToCanvas p.1 p.2 m) <$> start :: moves)) m)
    as (Fpoints & Ftool & Fcolor & Fwidth).
  rewrite validateDrawingData_spec.
  - f_equal. unfold spec_accepts. rewrite Fpoints, Ftool, Fcolor, Fwidth.
    rewrite Htool, Hwidth.
    apply andb_true_intro. split; [apply andb_true_intro; split;
      [apply andb_true_intro; split|]|].
    + apply spec_points_all; [done|].
      apply Forall_fmap, Forall_fmap.
      eapply Forall_impl; [done|]. intros p [? ?]. by apply clamped_point_ok.
    + cbn. apply bool_decide_eq_true. unfold validTools in Hname.
      rewrite !elem_of_cons, elem_of_nil in Hname. tauto.
    + cbn. by apply bool_decide_eq_true.
    + unfold spec_color. destruct Hcolor as [->|(c & -> & Hc)].
      * by destruct (color m).
      * rewrite Hc. apply orb_true_r.
  - by rewrite Fwidth, Hwidth.
  - intros points Hfield. rewrite Fpoints in Hfield.
    assert (points = point_object <$>
              ((λ p, clampToCanvas p.1 p.2 m) <$> start :: moves)) as ->
      by congruence.
    apply Forall_fmap, Forall_forall. by intros p _.
Qed.

Lemma stroke_validates_witness :
  ∃ payload,
    (stroke (of_Z 900, of_Z 10) [(of_Z 20, NegInfinity); (of_Z 30, of_Z 40)]
       sample_canvas).1 = Some payload ∧
    validateDrawingData payload = Normal true.
Proof.
  apply (stroke_validates (of_Z 900, of_Z 10)
           [(of_Z 20, NegInfinity); (of_Z 30, of_Z 40)] sample_canvas
           "brush" (Qc_of_Z 5)).
  - reflexivity.
  - by left.
  - reflexivity.
  - by vm_compute.
  - by vm_compute.
  - right. exists "#AbC123". split; [reflexivity | by vm_compute].
  - repeat constructor; done.
Defined.

End CanvasFacts.

(** * What acceptance by the validator guarantees *)

Module ValidatorFacts.
Import JS Server ServerFacts.

Lemma spec_point_shape point :
  spec_point point = true →
  ∃ coordinates x y,
    point = VObject coordinates ∧
    coordinates !! "x" = Some (VNumber (Finite x)) ∧
    coordinates !! "y" = Some (VNumber (Finite y)).
Proof.
  unfold spec_point, field. destruct point as [| | | | | |coordinates]; try done.
  intros [Hx Hy]%andb_true_iff. exists coordinates.
  destruct (coordinates !! "x") as [[| | |[| | |x]| | |]|]; try done.
  destruct (coordinates !! "y") as [[| | |[| | |y]| | |]|]; try done.
  by exists x, y.
Qed.

Lemma validatePoints_true points :
  validatePoints points = Normal true → Forall (λ p, spec_point p = true) points.
Proof.
  induction points as [|point points IH]; [constructor|].
  destruct point as [| |b|n|s|elements|coordinates]; [done|done|..];
    rewrite validatePoints_cons by done;
    (destruct (spec_point _) eqn:E; [|done]); intros H; constructor; auto.
Qed.

(** Acceptance is sound.  Whenever [validateDrawingData] returns [true],
    the payload is an object whose [points] is a non-empty array of objects
    with finite numeric [x] and [y], whose [tool] is "brush" or "eraser",
    whose [strokeWidth] is a number that is neither below 1 nor above 50,
    and whose [color], unless the tool is the eraser, is a '#' followed by
    six hex digits. *)
Theorem accepted_shape data :
  validateDrawingData data = Normal true →
  ∃ properties points name w,
    data = VObject properties ∧
    properties !! "points" = Some (VArray points) ∧
    points ≠ [] ∧
    (∀ point, point ∈ points →
       ∃ coordinates x y,
         point = VObject coordinates ∧
         coordinates !! "x" = Some (VNumber (Finite x)) ∧
         coordinates !! "y" = Some (VNumber (Finite y))) ∧
    properties !! "tool" = Some (VString name) ∧
    (name = "brush" ∨ name = "eraser") ∧
    properties !! "strokeWidth" = Some (VNumber w) ∧
    number_lt w (of_Z 1) = false ∧ number_lt (of_Z 50) w = false ∧
    (name = "eraser"
     ∨ ∃ c, properties !! "color" = Some (VString c) ∧ test_hex_color c = true).
Proof.
  intros Hvalid.
  destruct (validateDrawingData_accepts_object _ Hvalid) as [properties ->].
  unfold validateDrawingData in Hvalid.
  cbn [truthy typeof get mbind completion_bind negb orb] in Hvalid.
  replace (bool_decide ("object" = "object")) with true in Hvalid by done.
  cbn [negb] in Hvalid.
  destruct (properties !! "points") as [[| | | | |points|]|] eqn:Epoints; try done.
  cbn [default from_option id] in Hvalid.
  case_bool_decide as Hlen; [done|].
  destruct (properties !! "tool") as [[| | | |name| |]|] eqn:Etool; try done.
  cbn [default from_option id] in Hvalid.
  destruct (properties !! "strokeWidth") as [[| | |w| | |]|] eqn:Ewidth; try done.
  cbn [default from_option id] in Hvalid.
  rewrite tool_is_valid in Hvalid.
  case_bool_decide as Hname; [|done]. cbn [negb] in Hvalid.
  destruct (number_lt w (of_Z 1)) eqn:Hlo; [done|].
  destruct (number_lt (of_Z 50) w) eqn:Hhi; [done|]. cbn [orb] in Hvalid.
  destruct (bool_decide (name ≠ "eraser") && _) eqn:Hcolor; [done|].
  apply validatePoints_true in Hvalid.
  exists properties, points, name, w.
  split_and!; try done.
  - by destruct points.
  - intros point Hin. eapply Forall_forall in Hvalid; [|done].
    by apply spec_point_shape.
  - apply andb_false_iff in Hcolor as [Hcolor|Hcolor].
    + left. apply bool_decide_eq_false in Hcolor.
      by destruct (decide (name = "eraser")).
    + right. destruct (properties !! "color") as [[| | | |c| |]|]; try done.
      exists c. split; [done|]. by apply negb_false_iff.
Qed.

Lemma accepted_shape_witness :
  ∃ properties points name w,
    forged_payload = VObject properties ∧
    properties !! "points" = Some (VArray points) ∧
    points ≠ [] ∧
    (∀ point, point ∈ points →
       ∃ coordinates x y,
         point = VObject coordinates ∧
         coordinates !! "x" = Some (VNumber (Finite x)) ∧
         coordinates !! "y" = Some (VNumber (Finite y))) ∧
    properties !! "tool" = Some (VString name) ∧
    (name = "brush" ∨ name = "eraser") ∧
    properties !! "strokeWidth" = Some (VNumber w) ∧
    number_lt w (of_Z 1) = false ∧ number_lt (of_Z 50) w = false ∧
    (name = "eraser"
     ∨ ∃ c, properties !! "color" = Some (VString c) ∧ test_hex_color c = true).
Proof. apply (accepted_shape forged_payload). by vm_compute. Defined.

End ValidatorFacts.

(** * Properties of the client's replica *)

Module ClientFacts.
Import JS Server ServerFacts Client.
Import Ledger LedgerFacts.

Implicit Types (c : WebSocketManager) (ops : list (gmap string value)).
Implicit Types (hidden : gset string).

(** *** Lists *)






(** *** Ids *)




(** *** One client in one room *)

Section replica.
Context (sids : gmap string (list string)) (me room : string).
Context (Hrooms : socket_rooms sids me = [me; room]).
Context (Hroom : room ≠ me) (Hnamed : room ≠ "").




(** *** The handlers on a filtered log *)






(** *** Requests on other rooms *)




(** *** One request *)



(** *** A run of requests *)


Lemma step_throws request system :
  throws request = true → step sids me request system = None.
Proof using Type.
  destruct request as [sender intent]. unfold step, throws, serve. cbn [fst snd].
  destruct intent as [data now1 now2 random| | |]; [|done..].
  unfold on_draw. by destruct (validateDrawingData data) as [[|]|].
Qed.


End replica.




(** A run ends at the first handler that throws. *)
Lemma steps_end_at_throw sids me requests system :
  Exists (λ request, throws request = true) requests →
  steps sids me requests system = None.
Proof.
  intros Hthrows. revert system.
  induction Hthrows as [request requests Hthrow|request requests _ IH];
    intros system; cbn [steps].
  - by rewrite step_throws.
  - destruct (step sids me request system); [apply IH | done].
Qed.








End ClientFacts.
